(** * Index stitching and history walking of the Meraxes catalogue reader

    A shallow embedding of [dragons/meraxes/io.py] (the three link-array
    readers, [read_gals], [read_snaplist] and [grab_redshift]) and of
    [dragons/meraxes/galaxy_history.py] ([galaxy_history]), followed by
    the properties of the stitched link arrays, of the history walk and of
    the group names. *)

From Stdlib Require Import ZArith List Lia Bool Ascii.
From stdpp Require Import base tactics option list sorting.

Local Open Scope Z_scope.

(** ** Exceptions and fallible results *)

(** The Python exceptions the modelled code can raise. [Warning] is the
    exception class raised by [raise Warning(...)]. *)
Inductive exn : Type :=
| KeyError | IndexError | ValueError | TypeError | NameError | Warning.

Inductive result (A : Type) : Type :=
| Ok (a : A)
| Raise (e : exn).
Arguments Ok {A} a.
Arguments Raise {A} e.

Definition bind {A B : Type} (c : result A) (k : A -> result B) : result B :=
  match c with
  | Ok a => k a
  | Raise e => Raise e
  end.

Notation "'let*' x ':=' c 'in' k" := (bind c (fun x => k))
  (at level 10, x pattern, c at level 100, k at level 200).

Definition is_ok {A : Type} (c : result A) : bool :=
  match c with Ok _ => true | Raise _ => false end.

(** ** The catalogue file *)

(** A galaxy record; only the integer fields the readers touch are kept. *)
Record galaxy : Type := mkGalaxy { ID : Z; CentralGal : Z }.

(** [Snap%03d/Core%d]: the galaxy table of one core and its three link
    datasets. *)
Record core_group : Type := mkCore {
  Galaxies : list galaxy;
  FirstProgenitorIndices : list Z;
  NextProgenitorIndices : list Z;
  DescendantIndices : list Z
}.

(** [Snap%03d]: the [NGalaxies] attribute and the groups [Core0],
    [Core1], ... *)
Record snap_group : Type := mkSnap {
  NGalaxies : nat;
  Cores : list core_group
}.

(** The master file: the [NCores] attribute and the groups [Snap000],
    [Snap001], ... *)
Record h5file : Type := mkFile {
  NCores : nat;
  Snaps : list snap_group
}.

(** [fin["Snap{:03d}".format(snapshot)]] *)
Definition snap_lookup (fin : h5file) (snapshot : Z) : result snap_group :=
  if snapshot <? 0 then Raise KeyError
  else match Snaps fin !! Z.to_nat snapshot with
       | Some g => Ok g
       | None => Raise KeyError
       end.

(** [snap_group["Core{:d}/..."]] *)
Definition core_lookup (g : snap_group) (i_core : nat) : result core_group :=
  match Cores g !! i_core with
  | Some c => Ok c
  | None => Raise KeyError
  end.

(** ** numpy helpers *)

(** Two's-complement reduction of a value stored into an ['i4'] array. *)
Definition wrap32 (z : Z) : Z := (z + 2 ^ 31) mod 2 ^ 32 - 2 ^ 31.

Definition np_zeros (n : nat) : list Z := replicate n 0.

Fixpoint cumsum_from (acc : Z) (l : list Z) : list Z :=
  match l with
  | [] => []
  | x :: l' => (acc + x) :: cumsum_from (acc + x) l'
  end.

(** [np.cumsum]; the sum is taken in the platform integer. *)
Definition cumsum (l : list Z) : list Z := cumsum_from 0 l.

(** [a[i]] for an integer [i]: negative indices count from the end. *)
Definition np_index {A : Type} (a : list A) (i : Z) : result A :=
  let n := Z.of_nat (length a) in
  let j := if i <? 0 then i + n else i in
  if (j <? 0) || (n <=? j) then Raise IndexError
  else match a !! Z.to_nat j with
       | Some x => Ok x
       | None => Raise IndexError
       end.

(** [a[i] = x] for an integer [i]. *)
Definition np_setitem {A : Type} (a : list A) (i : Z) (x : A) : result (list A) :=
  let n := Z.of_nat (length a) in
  let j := if i <? 0 then i + n else i in
  if (j <? 0) || (n <=? j) then Raise IndexError
  else Ok (<[Z.to_nat j := x]> a).

(** [buf[counter:counter+len(xs)] = xs] *)
Definition splice {A : Type} (buf : list A) (counter : nat) (xs : list A)
  : list A :=
  take counter buf ++ xs ++ drop (counter + length xs) buf.

(** [ds.read_direct(buf, dest_sel=np.s_[counter:counter+ds.size])]. h5py
    clips the selection to [buf] and broadcasts the dataset over it: a
    selection of [ds.size] slots is filled with the dataset; a dataset of
    one element is accepted by a shorter selection, which is then the
    empty one, and nothing is read; any other dataset is rejected with
    "Can't broadcast". The values are copied as they are, which is what
    happens to the values of an ['i4'] dataset read into an ['i4']
    buffer; the conversion HDF5 applies to a value of a wider dataset
    that does not fit int32 is not modelled. *)
Definition read_direct {A : Type} (ds buf : list A) (counter : nat)
  : result (list A) :=
  if (counter + length ds <=? length buf)%nat then Ok (splice buf counter ds)
  else if (length ds =? 1)%nat then Ok buf
  else Raise TypeError.

(** The masked update of one element: [x[x > -1] += off] in an ['i4']
    array. *)
Definition add_offset (off v : Z) : Z :=
  if -1 <? v then wrap32 (v + off) else v.

(** [buf[counter:counter+n][buf[counter:counter+n] > -1] += off] *)
Definition offset_slice (buf : list Z) (counter n : nat) (off : Z) : list Z :=
  take counter buf
    ++ map (add_offset off) (take n (drop counter buf))
    ++ drop (counter + n) buf.

(** ** The link-array readers of [io.py] *)

(** The loop filling [prev_core_counter[i_core+1]] from the sizes of the
    destination snapshot's galaxy tables. *)
Fixpoint fill_core_counter (dest : snap_group) (i_cores : list nat)
    (prev_core_counter : list Z) : result (list Z) :=
  match i_cores with
  | [] => Ok prev_core_counter
  | i_core :: rest =>
      let* c := core_lookup dest i_core in
      fill_core_counter dest rest
        (<[S i_core := wrap32 (Z.of_nat (length (Galaxies c)))]> prev_core_counter)
  end.

(** [prev_core_counter] after the [np.cumsum]. *)
Definition core_offsets (n_cores : nat) (dest : snap_group) : result (list Z) :=
  let prev_core_counter := np_zeros n_cores in
  let* prev_core_counter := np_setitem prev_core_counter 0 0 in
  let* prev_core_counter :=
    fill_core_counter dest (seq 0 (n_cores - 1)) prev_core_counter in
  Ok (cumsum prev_core_counter).

(** The loop over the cores, as the three readers write it; the state is
    the result buffer and [counter]. [offset_of i_core counter] is the
    amount the reader adds to the slice of core [i_core], [counter] being
    the start of that slice. *)
Fixpoint stitch_loop (links : core_group -> list Z)
    (offset_of : nat -> nat -> result Z) (snap : snap_group)
    (i_cores : list nat) (ind : list Z) (counter : nat) : result (list Z) :=
  match i_cores with
  | [] => Ok ind
  | i_core :: rest =>
      let* c := core_lookup snap i_core in
      let ds := links c in
      let core_nvals := length ds in
      if (0 <? core_nvals)%nat then
        let* ind := read_direct ds ind counter in
        let* off := offset_of i_core counter in
        let ind := offset_slice ind counter core_nvals off in
        stitch_loop links offset_of snap rest ind (counter + core_nvals)
      else
        stitch_loop links offset_of snap rest ind counter
  end.

(** [prev_core_counter[i_core]] *)
Definition counter_offset (prev_core_counter : list Z) (i_core counter : nat)
  : result Z :=
  np_index prev_core_counter (Z.of_nat i_core).

(** [counter], the offset of [read_nextprogenitor_indices]. *)
Definition own_offset (i_core counter : nat) : result Z :=
  Ok (Z.of_nat counter).

Definition read_firstprogenitor_indices (fin : h5file) (snapshot : Z)
  : result (list Z) :=
  let n_cores := NCores fin in
  let* snap_group := snap_lookup fin snapshot in
  let* prev_snap_group := snap_lookup fin (snapshot - 1) in
  let n_gals := NGalaxies snap_group in
  let fp_ind := np_zeros n_gals in
  let* prev_core_counter := core_offsets n_cores prev_snap_group in
  stitch_loop FirstProgenitorIndices (counter_offset prev_core_counter)
    snap_group (seq 0 n_cores) fp_ind 0.

Definition read_nextprogenitor_indices (fin : h5file) (snapshot : Z)
  : result (list Z) :=
  let n_cores := NCores fin in
  let* snap_group := snap_lookup fin snapshot in
  let n_gals := NGalaxies snap_group in
  let np_ind := np_zeros n_gals in
  stitch_loop NextProgenitorIndices own_offset
    snap_group (seq 0 n_cores) np_ind 0.

Definition read_descendant_indices (fin : h5file) (snapshot : Z)
  : result (list Z) :=
  let n_cores := NCores fin in
  let* snap_group := snap_lookup fin snapshot in
  let* next_snap_group := snap_lookup fin (snapshot + 1) in
  let n_gals := NGalaxies snap_group in
  let desc_ind := np_zeros n_gals in
  let* prev_core_counter := core_offsets n_cores next_snap_group in
  stitch_loop DescendantIndices (counter_offset prev_core_counter)
    snap_group (seq 0 n_cores) desc_ind 0.

(** The three link kinds and the reader of each. *)
Inductive link_kind : Type := FirstProgenitor | NextProgenitor | Descendant.

Definition stitch (fin : h5file) (snapshot : Z) (kind : link_kind)
  : result (list Z) :=
  match kind with
  | FirstProgenitor => read_firstprogenitor_indices fin snapshot
  | NextProgenitor => read_nextprogenitor_indices fin snapshot
  | Descendant => read_descendant_indices fin snapshot
  end.

(** ** [read_gals] *)

Section Walker.

(** The contents [np.empty] leaves in a slot that is never written. *)
Variable uninit : galaxy.

(** [__apply_offsets]: [G[dest_sel]['CentralGal'] += counter] *)
Definition apply_offsets (G : list galaxy) (counter n : nat) (off : nat)
  : list galaxy :=
  take counter G
    ++ map (fun g => mkGalaxy (ID g) (CentralGal g + Z.of_nat off))
         (take n (drop counter G))
    ++ drop (counter + n) G.

(** The loop of [read_gals] when [indices is None]. *)
Fixpoint read_all_loop (snap : snap_group) (ngals : nat) (i_cores : list nat)
    (G : list galaxy) (counter : nat) : result (list galaxy) :=
  match i_cores with
  | [] => Ok G
  | i_core :: rest =>
      let* c := core_lookup snap i_core in
      let galaxies := Galaxies c in
      let core_ngals := length galaxies in
      if (0 <? core_ngals)%nat then
        let* G := read_direct galaxies G counter in
        let G := apply_offsets G counter core_ngals counter in
        let counter := (counter + core_ngals)%nat in
        if (ngals <=? counter)%nat then Ok G
        else read_all_loop snap ngals rest G counter
      else
        (* an empty core takes the branch of the index selection, where
           [np.compress] is given the scalar condition made from
           [indices = None] and rejects it *)
        Raise ValueError
  end.

(** The loop of [read_gals] for [indices=[ind]]: one record is wanted. *)
Fixpoint read_one_loop (snap : snap_group) (ind : Z) (i_cores : list nat)
    (G : list galaxy) (total_read : nat) : result (list galaxy) :=
  match i_cores with
  | [] => Ok G
  | i_core :: rest =>
      let* c := core_lookup snap i_core in
      let galaxies := Galaxies c in
      let core_ngals := length galaxies in
      if (Z.of_nat total_read <=? ind) && (ind <? Z.of_nat (total_read + core_ngals))
      then
        let read_ind := Z.to_nat (ind - Z.of_nat total_read) in
        (* [G[0:1] = galaxies[bool_sel]] *)
        let* g := np_index galaxies (Z.of_nat read_ind) in
        let G := splice G 0 [g] in
        Ok (apply_offsets G 0 1 total_read)
      else read_one_loop snap ind rest G (total_read + core_ngals)
  end.

(** [read_gals(fname, snapshot=snapshot, props=None, quiet=True,
    pandas=False, indices=...)] with no Hubble scaling set; [indices] is
    [None] or the one-element list [[ind]]. [ind] stands for the element
    of [np.array(indices, 'i')], an int32 value; what numpy does with a
    Python integer outside int32 is not modelled. *)
Definition read_gals (fin : h5file) (snapshot : Z) (indices : option Z)
  : result (list galaxy) :=
  let* snapshot :=
    if snapshot <? 0 then
      let present_snaps := map Z.of_nat (seq 0 (length (Snaps fin))) in
      np_index present_snaps snapshot
    else Ok snapshot in
  let* snap_group := snap_lookup fin snapshot in
  let n_cores := NCores fin in
  let ngals := NGalaxies snap_group in
  if (ngals =? 0)%nat then Raise IndexError else
  let* core0 := core_lookup snap_group 0 in
  match indices with
  | None =>
      read_all_loop snap_group ngals (seq 0 n_cores) (replicate ngals uninit) 0
  | Some ind =>
      read_one_loop snap_group ind (seq 0 n_cores) [uninit] 0
  end.

(** ** [galaxy_history] *)

(** What the call returns: the history alone, or the history with the
    merge marker. *)
Inductive history_result : Type :=
| HistoryOnly (history : list galaxy)
| HistoryMerged (history : list galaxy) (merged_snapshot : Z).

Definition zero_galaxy : galaxy := mkGalaxy 0 0.

(** [np.zeros(n, dtype=gals.dtype)] *)
Definition np_zeros_rec (n : Z) : result (list galaxy) :=
  if n <? 0 then Raise ValueError else Ok (replicate (Z.to_nat n) zero_galaxy).

(** [np.where(gals["ID"] == gal_id)[0][0]] *)
Definition where_id (gals : list galaxy) (gal_id : Z) : result nat :=
  match list_find (fun g => ID g = gal_id) gals with
  | Some (i, _) => Ok i
  | None => Raise IndexError
  end.

(** [history[snap] = read_gals(..., indices=[ind])] *)
Definition store_record (history : list galaxy) (snap : Z) (G : list galaxy)
  : result (list galaxy) :=
  match G with
  | [g] => np_setitem history snap g
  | _ => Raise ValueError
  end.

(** [range(snapshot-1, -1, -1)] *)
Definition range_down (snapshot : Z) : list Z :=
  map Z.of_nat (rev (seq 0 (Z.to_nat snapshot))).

(** [range(lo, hi)] *)
Definition range (lo hi : Z) : list Z :=
  map (fun i => lo + Z.of_nat i) (seq 0 (Z.to_nat (hi - lo))).

(** The backward loop; it returns the history buffer. *)
Fixpoint backward_loop (fin : h5file) (snaps : list Z)
    (history : list galaxy) (ind : Z) : result (list galaxy) :=
  match snaps with
  | [] => Ok history
  | snap :: rest =>
      let* G := read_gals fin snap (Some ind) in
      let* history := store_record history snap G in
      let* fp_ind := read_firstprogenitor_indices fin snap in
      let* ind := np_index fp_ind ind in
      if ind =? -1 then Ok history
      else backward_loop fin rest history ind
  end.

(** The state of the forward loop. *)
Record forward_state : Type := mkForward {
  fw_history : list galaxy;
  fw_ind : Z;
  fw_merged : Z
}.

(** One iteration of the forward loop; [inl] is the [break]. *)
Definition forward_step (fin : h5file) (future_snapshot snap : Z)
    (st : forward_state) : result (forward_state + forward_state) :=
  let last_ind := fw_ind st in
  let* desc_ind := read_descendant_indices fin (snap - 1) in
  let* ind := np_index desc_ind (fw_ind st) in
  if ind =? -1 then Ok (inl (mkForward (fw_history st) ind (fw_merged st)))
  else
    let* merged_snapshot :=
      if snap <? future_snapshot then
        let* fp_ind := read_firstprogenitor_indices fin snap in
        let* fp := np_index fp_ind ind in
        if negb (fp =? last_ind) && (fw_merged st =? -1) then Ok snap
        else Ok (fw_merged st)
      else Ok (fw_merged st) in
    let* G := read_gals fin snap (Some ind) in
    let* history := store_record (fw_history st) snap G in
    Ok (inr (mkForward history ind merged_snapshot)).

Fixpoint forward_loop (fin : h5file) (future_snapshot : Z) (snaps : list Z)
    (st : forward_state) : result forward_state :=
  match snaps with
  | [] => Ok st
  | snap :: rest =>
      let* r := forward_step fin future_snapshot snap st in
      match r with
      | inl st' => Ok st'
      | inr st' => forward_loop fin future_snapshot rest st'
      end
  end.

(** [galaxy_history] up to the end of the backward loop: the history
    buffer and [start_ind]. [future_snapshot] is the value after the
    default [-1] has been replaced. *)
Definition backward_phase (fin : h5file) (gal_id snapshot future_snapshot : Z)
  : result (list galaxy * nat) :=
  let* gals := read_gals fin snapshot None in
  let* start_ind := where_id gals gal_id in
  let* history := np_zeros_rec (future_snapshot + 1) in
  let* g := np_index gals (Z.of_nat start_ind) in
  let* history := np_setitem history snapshot g in
  let* fp_ind := read_firstprogenitor_indices fin snapshot in
  let* ind := np_index fp_ind (Z.of_nat start_ind) in
  if ind =? -1 then Raise Warning else
  let* history := backward_loop fin (range_down snapshot) history ind in
  Ok (history, start_ind).

(** The forward loop, entered with [ind = start_ind] and
    [merged_snapshot = -1]. *)
Definition forward_phase (fin : h5file) (snapshot future_snapshot : Z)
    (history : list galaxy) (start_ind : nat) : result forward_state :=
  forward_loop fin future_snapshot (range (snapshot + 1) (future_snapshot + 1))
    (mkForward history (Z.of_nat start_ind) (-1)).

(** The value [future_snapshot] has after
    [if future_snapshot == -1: future_snapshot = snapshot]. *)
Definition effective_future (snapshot future_snapshot : Z) : Z :=
  if future_snapshot =? -1 then snapshot else future_snapshot.

Definition galaxy_history (fin : h5file) (gal_id snapshot future_snapshot : Z)
    (pandas : bool) : result history_result :=
  let future_snapshot := effective_future snapshot future_snapshot in
  let* (history, start_ind) :=
    backward_phase fin gal_id snapshot future_snapshot in
  let* (history, merged_snapshot) :=
    if negb (future_snapshot =? snapshot) then
      let* st := forward_phase fin snapshot future_snapshot history start_ind in
      Ok (fw_history st, fw_merged st)
    else Ok (history, -1) in
  (* [ndarray_to_dataframe] uses the name [DataFrame], which the module
     never binds *)
  let* history := if pandas then Raise NameError else Ok history in
  if future_snapshot =? snapshot then Ok (HistoryOnly history)
  else Ok (HistoryMerged history merged_snapshot).

End Walker.

(** ** Specification-side definitions for the stitcher *)

Definition links_of (kind : link_kind) : core_group -> list Z :=
  match kind with
  | FirstProgenitor => FirstProgenitorIndices
  | NextProgenitor => NextProgenitorIndices
  | Descendant => DescendantIndices
  end.

(** Total number of link values held by a list of cores. *)
Definition links_total (links : core_group -> list Z) (cs : list core_group)
  : nat :=
  sum_list_with (fun c => length (links c)) cs.

(** Where the slice of core [i] starts in the stitched array. *)
Definition slice_start (links : core_group -> list Z) (cs : list core_group)
    (i : nat) : nat :=
  links_total links (take i cs).

(** The values the loop writes for the cores [cs], the first of which has
    number [i] and starts at [counter], when the offset added to a slice
    is [offs i_core counter]. *)
Fixpoint stitched_body (links : core_group -> list Z) (offs : nat -> nat -> Z)
    (cs : list core_group) (i counter : nat) : list Z :=
  match cs with
  | [] => []
  | c :: cs' =>
      map (add_offset (offs i counter)) (links c)
        ++ stitched_body links offs cs' (S i) (counter + length (links c))
  end.

(** The offset [prev_core_counter[i_core]] as a total function. *)
Definition counter_offs (prev_core_counter : list Z) (i_core counter : nat) : Z :=
  nth i_core prev_core_counter 0.

(** The offset of [read_nextprogenitor_indices] as a total function. *)
Definition own_offs (i_core counter : nat) : Z := Z.of_nat counter.

Definition core_size (c : core_group) : nat := length (Galaxies c).

(** [offset[i]]: the sum of the destination partition sizes [0..i-1]. *)
Definition dest_offset (dest_sizes : list nat) (i : nat) : Z :=
  Z.of_nat (sum_list (take i dest_sizes)).

(** The snapshot whose global index space a link kind points into. *)
Definition dest_snapshot (kind : link_kind) (snapshot : Z) : Z :=
  match kind with
  | FirstProgenitor => snapshot - 1
  | NextProgenitor => snapshot
  | Descendant => snapshot + 1
  end.

(** The reference reading of one link of partition [i]: a sentinel stays,
    any other value is moved by the cumulative destination offset. *)
Definition adjust_link (dest_sizes : list nat) (i : nat) (v : Z) : Z :=
  if decide (v = -1) then v else v + dest_offset dest_sizes i.

(** The reference stitcher, as the specification words it: the partitions'
    link arrays laid out one after the other in increasing partition
    order, every non-sentinel value moved by the offset of its partition. *)
Definition reference_stitch (raws : list (list Z)) (dest_sizes : list nat)
  : list Z :=
  concat (imap (fun i raw => map (adjust_link dest_sizes i) raw) raws).

(** A raw value of partition [i] is a sentinel or an index that stays an
    ['i4'] once the offset is added. *)
Definition link_ok (dest_sizes : list nat) (i : nat) (v : Z) : Prop :=
  -1 <= v /\ v + dest_offset dest_sizes i < 2 ^ 31.

(** What [read_firstprogenitor_indices] and [read_descendant_indices]
    need of the destination snapshot before the loop over the cores:
    its group, a core to hold [prev_core_counter[0]], and the galaxy
    tables of all but the last core. *)
Definition dest_ready (fin : h5file) (snapshot : Z) (kind : link_kind) : Prop :=
  match kind with
  | NextProgenitor => True
  | _ => (1 <= NCores fin)%nat
         /\ exists d, snap_lookup fin (dest_snapshot kind snapshot) = Ok d
                      /\ (NCores fin - 1 <= length (Cores d))%nat
  end.

(** ** Specification-side definitions for the walker *)


(** Iterations of the forward loop over the listed snapshots, none of
    which left the loop. *)
Inductive forward_run (uninit : galaxy) (fin : h5file) (future_snapshot : Z)
  : list Z -> forward_state -> forward_state -> Prop :=
| run_done st : forward_run uninit fin future_snapshot [] st st
| run_iter snap rest st st1 st2 :
    forward_step uninit fin future_snapshot snap st = Ok (inr st1) ->
    forward_run uninit fin future_snapshot rest st1 st2 ->
    forward_run uninit fin future_snapshot (snap :: rest) st st2.

(** The walk over [snaps] from [st0] reaches snapshot [m] through a
    non-sentinel Descendant link, [m] is before [future_snapshot], and the
    stitched FirstProgenitor value of the galaxy reached differs from the
    index the walk came from. *)
Definition divergence_detected (uninit : galaxy) (fin : h5file)
    (future_snapshot : Z) (snaps : list Z) (st0 : forward_state) (m : Z)
  : Prop :=
  exists pre post st st1 fp_ind fp,
    snaps = pre ++ m :: post
    /\ forward_run uninit fin future_snapshot pre st0 st
    /\ forward_step uninit fin future_snapshot m st = Ok (inr st1)
    /\ m < future_snapshot
    /\ read_firstprogenitor_indices fin m = Ok fp_ind
    /\ np_index fp_ind (fw_ind st1) = Ok fp
    /\ fp <> fw_ind st.

(** ** A small catalogue

    Two cores, five snapshots. The galaxies of snapshot 1 have no
    progenitor; galaxies 120 and 121 of snapshot 2 both descend to galaxy
    130 of snapshot 3, whose first progenitor is 120. *)
Definition gal (id : Z) : galaxy := mkGalaxy id 0.

Definition demo_catalog : h5file :=
  mkFile 2
    [ mkSnap 2 [ mkCore [gal 100] [-1] [-1] [-1]
               ; mkCore [gal 101] [-1] [-1] [-1] ]
    ; mkSnap 3 [ mkCore [gal 110; gal 111] [-1; -1] [-1; -1] [0; 1]
               ; mkCore [gal 112] [-1] [-1] [0] ]
    ; mkSnap 3 [ mkCore [gal 120; gal 121] [0; 1] [1; -1] [0; 0]
               ; mkCore [gal 122] [0] [-1] [0] ]
    ; mkSnap 2 [ mkCore [gal 130] [0] [-1] [0]
               ; mkCore [gal 132] [0] [-1] [0] ]
    ; mkSnap 2 [ mkCore [gal 140] [0] [-1] [-1]
               ; mkCore [gal 142] [0] [-1] [-1] ] ].

(** A catalogue whose snapshot 1 declares three galaxies and holds link
    values for two. *)
Definition short_catalog : h5file :=
  mkFile 2
    [ mkSnap 2 [ mkCore [gal 100] [-1] [-1] [0]
               ; mkCore [gal 101] [-1] [-1] [0] ]
    ; mkSnap 3 [ mkCore [gal 110] [0] [-1] [-1]
               ; mkCore [gal 111] [0] [-1] [-1] ] ].

(** A catalogue with a link value below the sentinel in its second
    core. *)
Definition odd_catalog : h5file :=
  mkFile 2
    [ mkSnap 2 [ mkCore [gal 100] [-1] [-1] [0]
               ; mkCore [gal 101] [-1] [-1] [0] ]
    ; mkSnap 2 [ mkCore [gal 110] [0] [-1] [-1]
               ; mkCore [gal 111] [-2] [-1] [-1] ] ].

(** A catalogue whose galaxies of snapshot 1 have their first
    progenitors in snapshot 0. *)
Definition old_catalog : h5file :=
  mkFile 2
    [ mkSnap 2 [ mkCore [gal 100] [-1] [-1] [0]
               ; mkCore [gal 101] [-1] [-1] [0] ]
    ; mkSnap 2 [ mkCore [gal 110] [0] [-1] [-1]
               ; mkCore [gal 111] [0] [-1] [-1] ] ].

(** A catalogue in which galaxy 120 of snapshot 2 has a first progenitor
    and no descendant. *)
Definition orphan_catalog : h5file :=
  mkFile 2
    [ mkSnap 2 [ mkCore [gal 100] [-1] [-1] [-1]
               ; mkCore [gal 101] [-1] [-1] [-1] ]
    ; mkSnap 2 [ mkCore [gal 110] [-1] [-1] [0]
               ; mkCore [gal 111] [-1] [-1] [0] ]
    ; mkSnap 2 [ mkCore [gal 120] [0] [-1] [-1]
               ; mkCore [gal 121] [0] [-1] [0] ]
    ; mkSnap 2 [ mkCore [gal 130] [-1] [-1] [-1]
               ; mkCore [gal 131] [0] [-1] [-1] ] ].

(** A record standing for the contents of a slot [np.empty] allocated. *)
Definition junk : galaxy := mkGalaxy (-7) (-7).

(** The sum of the sizes of the galaxy tables of the cores before [i],
    each as the ['i4'] slot of [prev_core_counter] holds it. *)
Definition wrapped_offset (dest : snap_group) (i : nat) : Z :=
  foldr Z.add 0
    (map (fun c => wrap32 (Z.of_nat (core_size c))) (take i (Cores dest))).

(** The offsets a reader of kind [kind] adds at snapshot [snapshot]. *)
Definition reader_offsets (fin : h5file) (snapshot : Z) (kind : link_kind)
    (offs : nat -> nat -> Z) : Prop :=
  match kind with
  | NextProgenitor => offs = own_offs
  | _ => exists d pcc,
           snap_lookup fin (dest_snapshot kind snapshot) = Ok d
           /\ core_offsets (NCores fin) d = Ok pcc
           /\ offs = counter_offs pcc
  end.

(** The first-progenitor links lead from the galaxy with global index
    [ind] at snapshot [snap] down to snapshot 0, which they reach at index
    [ind0], no stitched value on the way being the sentinel. *)
Inductive chain_reaches_zero (fin : h5file) : Z -> Z -> Z -> Prop :=
| reaches_here ind : chain_reaches_zero fin 0 ind ind
| reaches_step snap ind fp_ind ind' ind0 :
    read_firstprogenitor_indices fin snap = Ok fp_ind ->
    np_index fp_ind ind = Ok ind' ->
    ind' <> -1 ->
    chain_reaches_zero fin (snap - 1) ind' ind0 ->
    chain_reaches_zero fin snap ind ind0.

(** The history array of a result. *)
Definition history_of (r : history_result) : list galaxy :=
  match r with
  | HistoryOnly history => history
  | HistoryMerged history _ => history
  end.

(** ** Specification-side definitions for [read_gals] *)

(** A record whose [CentralGal] has been moved by the start of its core. *)
Definition shifted (off : nat) (g : galaxy) : galaxy :=
  mkGalaxy (ID g) (CentralGal g + Z.of_nat off).

(** The records of the cores [cs] in global order, the first core starting
    at global index [start]; [CentralGal], an index local to its core,
    is moved by the start of the core. *)
Fixpoint global_records (cs : list core_group) (start : nat) : list galaxy :=
  match cs with
  | [] => []
  | c :: cs' =>
      map (shifted start) (Galaxies c)
        ++ global_records cs' (start + length (Galaxies c))
  end.

(** ** Group names and the snapshot list

    The part of [io.py] that works on the names of the groups of the
    master file: [read_snaplist] and [grab_redshift], with the string
    operations they share with [read_gals]. *)

(** A Python [str], the list of its characters. *)
Definition str : Type := list ascii.

#[global] Instance ascii_eq_dec : EqDecision ascii := ascii_dec.

(** The decimal digits of a non-negative integer, the most significant
    first. *)
Fixpoint digits_acc (fuel : nat) (n : Z) (acc : list Z) : list Z :=
  match fuel with
  | O => acc
  | S fuel =>
      if n <? 10 then n :: acc
      else digits_acc fuel (n / 10) (n mod 10 :: acc)
  end.

Definition digits (n : Z) : list Z :=
  digits_acc (S (Z.to_nat (Z.log2 n))) n [].

Definition digit_char (d : Z) : ascii := ascii_of_nat (48 + Z.to_nat d).

(** Padding with zeros on the left up to [width] characters. *)
Definition zfill (width : nat) (s : str) : str :=
  replicate (width - length s) "0"%char ++ s.

(** ['%03d' % n] and ['{:03d}'.format(n)]: the sign counts in the
    width. *)
Definition format_03d (n : Z) : str :=
  if n <? 0 then "-"%char :: zfill 2 (map digit_char (digits (- n)))
  else zfill 3 (map digit_char (digits n)).

(** ['Snap%03d' % snapshot] *)
Definition snap_name (snapshot : Z) : str :=
  ["S"; "n"; "a"; "p"]%char ++ format_03d snapshot.

Definition digit_value (c : ascii) : option Z :=
  let n := Z.of_nat (nat_of_ascii c) in
  if (48 <=? n) && (n <=? 57) then Some (n - 48) else None.

Fixpoint int_digits (s : str) (acc : Z) : option Z :=
  match s with
  | [] => Some acc
  | c :: s' =>
      match digit_value c with
      | Some d => int_digits s' (10 * acc + d)
      | None => None
      end
  end.

(** [int(s)] on a string made of an optional sign and decimal digits;
    any other string counts as not a number ([ValueError]), also the ones
    with white space around the digits, which [int] accepts and which no
    group name of a Meraxes file has. *)
Definition py_int (s : str) : result Z :=
  let '(sign, body) :=
    match s with
    | c :: s' =>
        if (c =? "-")%char then (-1, s')
        else if (c =? "+")%char then (1, s')
        else (1, s)
    | [] => (1, [])
    end in
  match body with
  | [] => Raise ValueError
  | _ :: _ =>
      match int_digits body 0 with
      | Some n => Ok (sign * n)
      | None => Raise ValueError
      end
  end.

(** [s[-3:]] *)
Definition last_three (s : str) : str := drop (length s - 3) s.

(** [p.find('Snap') == 0] *)
Definition starts_with_Snap (p : str) : bool :=
  bool_decide (take 4 p = ["S"; "n"; "a"; "p"]%char).

(** [[f(x) for x in xs]] with a fallible [f] *)
Fixpoint map_result {A B : Type} (f : A -> result B) (xs : list A)
  : result (list B) :=
  match xs with
  | [] => Ok []
  | x :: xs' =>
      let* y := f x in
      let* ys := map_result f xs' in
      Ok (y :: ys)
  end.

Section SnapshotList.

(** The type of the floating-point attribute values, the division of
    [lt_times /= h] and the module variable [__meraxes_h]. *)
Variable float : Type.
Variable fdiv : float -> float -> float.
Variable meraxes_h : option float.

(** The attributes of an item of the master file that the two functions
    read: the first element of [Redshift] and of [LTTime], [None] for an
    attribute the item does not have. *)
Record item_attrs : Type := mkAttrs {
  Redshift : option float;
  LTTime : option float
}.

(** The items of the master file under their names, in the order of
    [fin.keys()]. *)
Definition named_file : Type := list (str * item_attrs).

(** The loop of [read_snaplist]; the [KeyError] of a missing attribute is
    caught after the lists before it have been extended. *)
Fixpoint read_snaplist_loop (items : named_file) (zlist : list float)
    (snaplist : list Z) (lt_times : list float)
  : result (list Z * list float * list float) :=
  match items with
  | [] => Ok (snaplist, zlist, lt_times)
  | (snap, a) :: rest =>
      match Redshift a with
      | None => read_snaplist_loop rest zlist snaplist lt_times
      | Some z =>
          let zlist := zlist ++ [z] in
          let* n := py_int (last_three snap) in
          let snaplist := snaplist ++ [n] in
          match LTTime a with
          | None => read_snaplist_loop rest zlist snaplist lt_times
          | Some t => read_snaplist_loop rest zlist snaplist (lt_times ++ [t])
          end
      end
  end.

(** [read_snaplist(fname, h=h)]; the result is
    [(snaps, redshifts, lt_times)]. *)
Definition read_snaplist (fin : named_file) (h : option float)
  : result (list Z * list float * list float) :=
  let h := match h, meraxes_h with
           | None, Some m => Some m
           | _, _ => h
           end in
  let* lists := read_snaplist_loop fin [] [] [] in
  let '(snaplist, zlist, lt_times) := lists in
  let lt_times := match h with
                  | Some h => map (fun t => fdiv t h) lt_times
                  | None => lt_times
                  end in
  Ok (snaplist, zlist, lt_times).

(** [fin[name]] *)
Definition item_lookup (fin : named_file) (name : str) : result item_attrs :=
  match list_find (fun it => fst it = name) fin with
  | Some (_, (_, a)) => Ok a
  | None => Raise KeyError
  end.

(** [grab_redshift(fname, snapshot)] *)
Definition grab_redshift (fin : named_file) (snapshot : Z) : result float :=
  let* snapshot :=
    if snapshot <? 0 then
      let present_snaps := List.filter starts_with_Snap (map fst fin) in
      let* present_snaps :=
        map_result (fun p => py_int (drop 4 p)) present_snaps in
      np_index (merge_sort Z.le present_snaps) snapshot
    else Ok snapshot in
  let* g := item_lookup fin (snap_name snapshot) in
  match Redshift g with
  | Some z => Ok z
  | None => Raise KeyError
  end.

End SnapshotList.

Arguments mkAttrs {float} _ _.
Arguments Redshift {float} _.
Arguments LTTime {float} _.
Arguments read_snaplist_loop {float} _ _ _ _.
Arguments read_snaplist {float} _ _ _ _.
Arguments item_lookup {float} _ _.
Arguments grab_redshift {float} _ _.

(** *** Specification-side definitions for the group names *)

(** The number a list of decimal digits writes. *)
Definition decimal_value (ds : list Z) : Z :=
  fold_left (fun a d => 10 * a + d) ds 0.

Definition is_digit (d : Z) : Prop := 0 <= d <= 9.

(** The item has the attribute. *)
Definition has_redshift {float : Type} (it : str * item_attrs float) : bool :=
  match Redshift (snd it) with Some _ => true | None => false end.

Definition has_lt_time {float : Type} (it : str * item_attrs float) : bool :=
  match LTTime (snd it) with Some _ => true | None => false end.

(** The group of snapshot [n] with redshift [z] and light travel time
    [t]. *)
Definition snapshot_item {float : Type} (e : Z * float * float)
  : str * item_attrs float :=
  let '(n, z, t) := e in (snap_name n, mkAttrs (Some z) (Some t)).

(** A master file with the groups of the snapshots 7, 12 and 1000
    between two other items; integers stand for the attribute values. *)
Definition names_catalog : named_file Z :=
  [ (["I"; "n"; "p"; "u"; "t"; "P"; "a"; "r"; "a"; "m"; "s"]%char,
     mkAttrs None None)
  ; (snap_name 7, mkAttrs (Some 90) (Some 700))
  ; (snap_name 12, mkAttrs (Some 85) (Some 1200))
  ; (snap_name 1000, mkAttrs (Some 5) (Some 13000))
  ; (["U"; "n"; "i"; "t"; "s"]%char, mkAttrs None None) ].

(** A master file whose group of snapshot 12 has no [LTTime]. *)
Definition gappy_catalog : named_file Z :=
  [ (snap_name 7, mkAttrs (Some 90) (Some 700))
  ; (snap_name 12, mkAttrs (Some 85) None)
  ; (snap_name 13, mkAttrs (Some 80) (Some 1300)) ].

(** ** Lemmas on buffers *)

Lemma splice_length {A : Type} (buf xs : list A) (counter : nat) :
  (counter + length xs <= length buf)%nat ->
  length (splice buf counter xs) = length buf.
Proof.
  intros H. unfold splice.
  rewrite !length_app, length_take, length_drop. lia.
Qed.

Lemma splice_nil {A : Type} (buf : list A) (counter : nat) :
  splice buf counter [] = buf.
Proof.
  unfold splice. simpl. rewrite Nat.add_0_r. apply take_drop.
Qed.

Lemma splice_splice {A : Type} (buf xs ys : list A) (counter : nat) :
  (counter + length xs <= length buf)%nat ->
  splice (splice buf counter xs) (counter + length xs) ys
  = splice buf counter (xs ++ ys).
Proof.
  intros H. unfold splice.
  assert (Hc : length (take counter buf) = counter)
    by (rewrite length_take; lia).
  rewrite (app_assoc (take counter buf) xs).
  rewrite take_app_length'
    by (rewrite length_app, Hc; reflexivity).
  rewrite <- !app_assoc. f_equal. f_equal. f_equal.
  rewrite (app_assoc (take counter buf) xs).
  rewrite drop_app_ge by (rewrite length_app, Hc; lia).
  rewrite length_app, Hc, drop_drop, length_app.
  f_equal. lia.
Qed.

Lemma read_direct_ok {A : Type} (ds buf : list A) (counter : nat) :
  (counter + length ds <= length buf)%nat ->
  read_direct ds buf counter = Ok (splice buf counter ds).
Proof.
  intros H. unfold read_direct.
  destruct (Nat.leb_spec (counter + length ds) (length buf)); [reflexivity | lia].
Qed.

Lemma read_direct_inv {A : Type} (ds buf out : list A) (counter : nat) :
  read_direct ds buf counter = Ok out ->
  ((counter + length ds <= length buf)%nat /\ out = splice buf counter ds)
  \/ ((length buf < counter + length ds)%nat
      /\ length ds = 1%nat /\ out = buf).
Proof.
  unfold read_direct.
  destruct (Nat.leb_spec (counter + length ds) (length buf)).
  - intros [= <-]. left. split; [assumption | reflexivity].
  - destruct (Nat.eqb_spec (length ds) 1); [|discriminate].
    intros [= <-]. right. repeat split; assumption.
Qed.

Lemma offset_slice_beyond (buf : list Z) (counter n : nat) (off : Z) :
  (length buf <= counter)%nat -> offset_slice buf counter n off = buf.
Proof.
  intros H. unfold offset_slice.
  rewrite take_ge, (drop_ge buf counter), (drop_ge buf (counter + n)) by lia.
  rewrite take_nil. simpl. apply app_nil_r.
Qed.

Lemma take_splice_beyond {A : Type} (buf xs : list A) (counter : nat) :
  (length buf <= counter)%nat ->
  take (length buf) (splice buf counter xs) = buf.
Proof.
  intros H. unfold splice. rewrite (take_ge buf counter) by lia.
  apply take_app_length.
Qed.

Lemma offset_slice_splice (buf ds : list Z) (counter : nat) (off : Z) :
  (counter + length ds <= length buf)%nat ->
  offset_slice (splice buf counter ds) counter (length ds) off
  = splice buf counter (map (add_offset off) ds).
Proof.
  intros H. unfold offset_slice, splice.
  assert (Hc : length (take counter buf) = counter)
    by (rewrite length_take; lia).
  rewrite length_map.
  rewrite take_app_length' by (now rewrite Hc).
  rewrite drop_app_length' by (now rewrite Hc).
  rewrite take_app_length' by reflexivity.
  f_equal. f_equal.
  rewrite (app_assoc (take counter buf) ds).
  rewrite drop_app_length' by (rewrite length_app, Hc; reflexivity).
  reflexivity.
Qed.

(** ** The loop over the cores *)

Lemma stitched_body_length links offs cs : forall i counter,
  length (stitched_body links offs cs i counter) = links_total links cs.
Proof.
  induction cs as [|c cs IH]; intros i counter; simpl; [reflexivity|].
  rewrite length_app, length_map, IH. reflexivity.
Qed.

Lemma bind_ok_inv {A B : Type} (c : result A) (k : A -> result B) (b : B) :
  bind c k = Ok b -> exists a, c = Ok a /\ k a = Ok b.
Proof.
  destruct c as [a|e]; simpl; [|discriminate].
  intros H. exists a. split; [reflexivity | exact H].
Qed.

Lemma core_lookup_ok (snap : snap_group) (i : nat) (c : core_group) :
  core_lookup snap i = Ok c <-> Cores snap !! i = Some c.
Proof.
  unfold core_lookup. destruct (Cores snap !! i); split; congruence.
Qed.

(** The loop succeeds, and writes [stitched_body], whenever the cores
    exist, the offsets can be read and the values fit into the buffer. *)
Lemma stitch_loop_ok links offset_of offs snap cs : forall k buf counter,
  (forall i, (i < length cs)%nat -> Cores snap !! (k + i)%nat = cs !! i) ->
  (forall i c, (k <= i < k + length cs)%nat -> offset_of i c = Ok (offs i c)) ->
  (counter + links_total links cs <= length buf)%nat ->
  stitch_loop links offset_of snap (seq k (length cs)) buf counter
  = Ok (splice buf counter (stitched_body links offs cs k counter)).
Proof.
  induction cs as [|c cs IH]; intros k buf counter Hcs Hoff Hfit.
  - simpl. rewrite splice_nil. reflexivity.
  - simpl length. simpl seq. simpl stitch_loop.
    assert (Hc : core_lookup snap k = Ok c).
    { apply core_lookup_ok. specialize (Hcs 0%nat).
      rewrite Nat.add_0_r in Hcs. apply Hcs. simpl. lia. }
    rewrite Hc. simpl bind.
    unfold links_total in Hfit. simpl in Hfit. fold (links_total links cs) in Hfit.
    assert (Hcs' : forall i, (i < length cs)%nat ->
                             Cores snap !! (S k + i)%nat = cs !! i).
    { intros i Hi. specialize (Hcs (S i)). simpl in Hcs.
      rewrite <- Hcs by lia. f_equal. lia. }
    assert (Hoff' : forall i c0, (S k <= i < S k + length cs)%nat ->
                                 offset_of i c0 = Ok (offs i c0)).
    { intros i c0 Hi. apply Hoff. simpl. lia. }
    destruct (Nat.ltb_spec 0 (length (links c))) as [Hpos|Hzero].
    + rewrite read_direct_ok by lia. simpl bind.
      rewrite Hoff by (simpl; lia). simpl bind.
      rewrite offset_slice_splice by lia.
      rewrite (IH (S k)); try assumption.
      * f_equal. simpl stitched_body.
        rewrite <- (length_map (add_offset (offs k counter)) (links c)) at 1.
        rewrite splice_splice by (rewrite length_map; lia).
        reflexivity.
      * rewrite splice_length by (rewrite length_map; lia). lia.
    + assert (Hnil : links c = []) by (destruct (links c); simpl in *; [reflexivity | lia]).
      rewrite (IH (S k)); try assumption; [|rewrite Hnil in Hfit; simpl in Hfit; lia].
      simpl stitched_body. rewrite Hnil. simpl. rewrite Nat.add_0_r. reflexivity.
Qed.

(** Conversely, a run that returns found every core, and its result is
    the buffer with the values of the cores written from [counter] on,
    as far as the buffer reaches. *)
Lemma stitch_loop_inv links offset_of offs snap m : forall k buf counter out,
  (forall i c, (k <= i < k + m)%nat -> offset_of i c = Ok (offs i c)) ->
  stitch_loop links offset_of snap (seq k m) buf counter = Ok out ->
  exists cs, length cs = m
    /\ (forall i, (i < m)%nat -> Cores snap !! (k + i)%nat = cs !! i)
    /\ out = take (length buf)
               (splice buf counter (stitched_body links offs cs k counter)).
Proof.
  induction m as [|m IH]; intros k buf counter out Hoff Hrun.
  - exists []. split; [reflexivity|]. split; [intros i Hi; lia|].
    injection Hrun as <-. simpl stitched_body.
    rewrite splice_nil, take_ge by lia. reflexivity.
  - simpl seq in Hrun. simpl stitch_loop in Hrun.
    apply bind_ok_inv in Hrun as (c & Hc & Hrun).
    apply core_lookup_ok in Hc.
    assert (Hoff' : forall i c0, (S k <= i < S k + m)%nat ->
                                 offset_of i c0 = Ok (offs i c0)).
    { intros i c0 Hi. apply Hoff. lia. }
    assert (Hcons : forall cs,
              (forall i, (i < m)%nat -> Cores snap !! (S k + i)%nat = cs !! i) ->
              forall i, (i < S m)%nat ->
                        Cores snap !! (k + i)%nat = (c :: cs) !! i).
    { intros cs Hlook [|i] Hi; simpl.
      - rewrite Nat.add_0_r. exact Hc.
      - rewrite <- Hlook by lia. f_equal. lia. }
    destruct (Nat.ltb_spec 0 (length (links c))) as [Hpos|Hzero].
    + apply bind_ok_inv in Hrun as (buf1 & Hrd & Hrun).
      apply bind_ok_inv in Hrun as (off & Hoffk & Hrun).
      rewrite Hoff in Hoffk by lia. injection Hoffk as <-.
      apply read_direct_inv in Hrd as [(Hfit & ->)|(Hover & Hone & ->)].
      * rewrite offset_slice_splice in Hrun by lia.
        apply (IH _ _ _ _ Hoff') in Hrun as (cs & Hlen & Hlook & ->).
        exists (c :: cs). split; [simpl; lia|].
        split; [apply Hcons; exact Hlook|].
        rewrite splice_length by (rewrite length_map; lia).
        simpl stitched_body.
        rewrite <- (length_map (add_offset (offs k counter)) (links c)) at 1.
        rewrite splice_splice by (rewrite length_map; lia).
        reflexivity.
      * rewrite offset_slice_beyond in Hrun by lia.
        apply (IH _ _ _ _ Hoff') in Hrun as (cs & Hlen & Hlook & ->).
        exists (c :: cs). split; [simpl; lia|].
        split; [apply Hcons; exact Hlook|].
        rewrite !take_splice_beyond by lia. reflexivity.
    + assert (Hnil : links c = [])
        by (destruct (links c); simpl in *; [reflexivity | lia]).
      apply (IH _ _ _ _ Hoff') in Hrun as (cs & Hlen & Hlook & ->).
      exists (c :: cs). split; [simpl; lia|].
      split; [apply Hcons; exact Hlook|].
      simpl stitched_body. rewrite Hnil. simpl. rewrite Nat.add_0_r.
      reflexivity.
Qed.

Lemma lookup_prefix_take {A : Type} (l cs : list A) (n : nat) :
  length cs = n ->
  (forall i, (i < n)%nat -> l !! i = cs !! i) ->
  (n <= length l)%nat /\ cs = take n l.
Proof.
  intros Hlen Hlook.
  assert (Hn : (n <= length l)%nat).
  { destruct n as [|n]; [lia|].
    assert (Hs : is_Some (l !! n)).
    { rewrite Hlook by lia. apply lookup_lt_is_Some. lia. }
    apply lookup_lt_is_Some in Hs. lia. }
  split; [exact Hn|].
  apply list_eq. intros i.
  destruct (Nat.lt_ge_cases i n) as [Hi|Hi].
  - rewrite lookup_take_lt by exact Hi. symmetry. apply Hlook. exact Hi.
  - rewrite lookup_take_ge by exact Hi. apply lookup_ge_None. lia.
Qed.

(** What a run of the loop over all cores returns. *)
Lemma stitch_loop_run links offset_of offs snap n buf out :
  (forall i c, (i < n)%nat -> offset_of i c = Ok (offs i c)) ->
  stitch_loop links offset_of snap (seq 0 n) buf 0 = Ok out ->
  (n <= length (Cores snap))%nat
  /\ out = take (length buf)
             (splice buf 0 (stitched_body links offs (take n (Cores snap)) 0 0)).
Proof.
  intros Hoff Hrun.
  destruct (stitch_loop_inv links offset_of offs snap n 0 buf 0 out)
    as (cs & Hlen & Hlook & ->); [intros i c Hi; apply Hoff; lia | exact Hrun |].
  destruct (lookup_prefix_take (Cores snap) cs n Hlen Hlook) as (Hn & ->).
  split; [exact Hn | reflexivity].
Qed.

(** ** Indexing *)

Lemma np_index_nat {A : Type} (a : list A) (i : nat) (x : A) :
  a !! i = Some x -> np_index a (Z.of_nat i) = Ok x.
Proof.
  intros H. pose proof (lookup_lt_Some _ _ _ H) as Hlt.
  unfold np_index.
  destruct (Z.ltb_spec (Z.of_nat i) 0) as [?|_]; [lia|].
  destruct (Z.ltb_spec (Z.of_nat i) 0) as [?|_]; [lia|].
  destruct (Z.leb_spec (Z.of_nat (length a)) (Z.of_nat i)) as [?|_]; [lia|].
  simpl. rewrite Nat2Z.id, H. reflexivity.
Qed.

Lemma np_setitem_nat {A : Type} (a : list A) (i : nat) (x : A) :
  (i < length a)%nat -> np_setitem a (Z.of_nat i) x = Ok (<[i := x]> a).
Proof.
  intros Hlt. unfold np_setitem.
  destruct (Z.ltb_spec (Z.of_nat i) 0) as [?|_]; [lia|].
  destruct (Z.ltb_spec (Z.of_nat i) 0) as [?|_]; [lia|].
  destruct (Z.leb_spec (Z.of_nat (length a)) (Z.of_nat i)) as [?|_]; [lia|].
  simpl. rewrite Nat2Z.id. reflexivity.
Qed.

Lemma np_setitem_length {A : Type} (a b : list A) (i : Z) (x : A) :
  np_setitem a i x = Ok b -> length b = length a.
Proof.
  unfold np_setitem. destruct (_ || _); [discriminate|].
  intros [= <-]. apply length_insert.
Qed.

(** ** The per-core offsets *)

Lemma counter_offset_ok pcc i counter :
  (i < length pcc)%nat ->
  counter_offset pcc i counter = Ok (counter_offs pcc i counter).
Proof.
  intros Hi. unfold counter_offset, counter_offs.
  apply np_index_nat.
  destruct (nth_lookup_or_length pcc i 0) as [H|H]; [exact H | lia].
Qed.

Lemma fill_core_counter_length dest i_cores : forall pcc out,
  fill_core_counter dest i_cores pcc = Ok out -> length out = length pcc.
Proof.
  induction i_cores as [|i rest IH]; intros pcc out H; simpl in H.
  - congruence.
  - apply bind_ok_inv in H as (c & _ & H). apply IH in H.
    rewrite length_insert in H. exact H.
Qed.

Lemma cumsum_from_length l : forall acc, length (cumsum_from acc l) = length l.
Proof.
  induction l as [|x l IH]; intros acc; simpl; [reflexivity|].
  rewrite IH. reflexivity.
Qed.

(** [core_offsets] returns one offset per core, and needs a core. *)
Lemma core_offsets_length n dest pcc :
  core_offsets n dest = Ok pcc -> length pcc = n /\ (1 <= n)%nat.
Proof.
  unfold core_offsets. intros H.
  apply bind_ok_inv in H as (p1 & H1 & H).
  apply bind_ok_inv in H as (p2 & H2 & H).
  injection H as <-.
  pose proof (np_setitem_length _ _ _ _ H1) as L1.
  apply fill_core_counter_length in H2.
  unfold cumsum. rewrite cumsum_from_length.
  unfold np_zeros in *. rewrite length_replicate in L1.
  split; [lia|].
  destruct n as [|n]; [|lia].
  unfold np_setitem in H1. simpl in H1. discriminate.
Qed.

(** ** Shape of the stitched array *)

Lemma splice_zeros (n : nat) (body : list Z) :
  splice (np_zeros n) 0 body = body ++ replicate (n - length body) 0.
Proof.
  unfold splice, np_zeros. simpl. rewrite drop_replicate. reflexivity.
Qed.

(** A reader that returns has laid the slices of the cores out one after
    the other, each with some offset added by [add_offset], followed by
    the zeros of the allocation; the array has the declared length. *)
Lemma stitch_shape fin snapshot kind out :
  stitch fin snapshot kind = Ok out ->
  exists g offs,
    snap_lookup fin snapshot = Ok g
    /\ (NCores fin <= length (Cores g))%nat
    /\ out = take (NGalaxies g)
               (stitched_body (links_of kind) offs
                  (take (NCores fin) (Cores g)) 0 0
                ++ replicate
                     (NGalaxies g
                      - links_total (links_of kind)
                          (take (NCores fin) (Cores g))) 0).
Proof.
  intros H.
  assert (Hgen : forall g offset_of offs,
            snap_lookup fin snapshot = Ok g ->
            (forall i c, (i < NCores fin)%nat -> offset_of i c = Ok (offs i c)) ->
            stitch_loop (links_of kind) offset_of g (seq 0 (NCores fin))
              (np_zeros (NGalaxies g)) 0 = Ok out ->
            exists g0 offs0,
              snap_lookup fin snapshot = Ok g0
              /\ (NCores fin <= length (Cores g0))%nat
              /\ out = take (NGalaxies g0)
                         (stitched_body (links_of kind) offs0
                            (take (NCores fin) (Cores g0)) 0 0
                          ++ replicate
                               (NGalaxies g0
                                - links_total (links_of kind)
                                    (take (NCores fin) (Cores g0))) 0)).
  { intros g offset_of offs Hg Hoff Hrun.
    destruct (stitch_loop_run _ _ _ _ _ _ _ Hoff Hrun) as (Hn & ->).
    exists g, offs. repeat split; try assumption.
    rewrite splice_zeros, stitched_body_length.
    unfold np_zeros. rewrite length_replicate. reflexivity. }
  destruct kind; simpl in H.
  - unfold read_firstprogenitor_indices in H.
    apply bind_ok_inv in H as (g & Hg & H).
    apply bind_ok_inv in H as (pg & Hpg & H).
    apply bind_ok_inv in H as (pcc & Hpcc & H).
    apply core_offsets_length in Hpcc as (Hlen & _).
    apply (Hgen g (counter_offset pcc) (counter_offs pcc)); try assumption.
    intros i c Hi. apply counter_offset_ok. lia.
  - unfold read_nextprogenitor_indices in H.
    apply bind_ok_inv in H as (g & Hg & H).
    apply (Hgen g own_offset own_offs); try assumption.
    reflexivity.
  - unfold read_descendant_indices in H.
    apply bind_ok_inv in H as (g & Hg & H).
    apply bind_ok_inv in H as (ng & Hng & H).
    apply bind_ok_inv in H as (pcc & Hpcc & H).
    apply core_offsets_length in Hpcc as (Hlen & _).
    apply (Hgen g (counter_offset pcc) (counter_offs pcc)); try assumption.
    intros i c Hi. apply counter_offset_ok. lia.
Qed.

(** The array a reader returns has the declared length. *)
Lemma stitch_length fin snapshot kind out g :
  stitch fin snapshot kind = Ok out ->
  snap_lookup fin snapshot = Ok g ->
  length out = NGalaxies g.
Proof.
  intros Hrun Hg.
  destruct (stitch_shape _ _ _ _ Hrun) as (g' & offs & Hg' & Hn & ->).
  assert (g' = g) by congruence. subst g'.
  rewrite length_take, length_app, stitched_body_length, length_replicate.
  lia.
Qed.

Lemma slice_start_cons links c cs i :
  slice_start links (c :: cs) (S i)
  = (length (links c) + slice_start links cs i)%nat.
Proof. reflexivity. Qed.

Lemma slice_start_take links cs n i :
  (i <= n)%nat -> slice_start links (take n cs) i = slice_start links cs i.
Proof.
  intros Hi. unfold slice_start. rewrite take_take, Nat.min_l by exact Hi.
  reflexivity.
Qed.

(** The value written for element [j] of core [i]. *)
Lemma stitched_body_lookup links offs cs : forall k counter i c j v,
  cs !! i = Some c ->
  links c !! j = Some v ->
  stitched_body links offs cs k counter !! (slice_start links cs i + j)%nat
  = Some (add_offset (offs (k + i)%nat (counter + slice_start links cs i)%nat) v).
Proof.
  induction cs as [|c0 cs IH]; intros k counter i c j v Hc Hv.
  - rewrite lookup_nil in Hc. discriminate.
  - destruct i as [|i]; simpl in Hc.
    + injection Hc as ->. simpl stitched_body.
      change (slice_start links (c :: cs) 0) with 0%nat.
      rewrite !Nat.add_0_r. simpl.
      rewrite lookup_app_l
        by (rewrite length_map; apply (lookup_lt_Some _ _ _ Hv)).
      rewrite list_lookup_fmap, Hv. reflexivity.
    + simpl stitched_body. rewrite slice_start_cons.
      rewrite lookup_app_r by (rewrite length_map; lia).
      rewrite length_map.
      replace (length (links c0) + slice_start links cs i + j
               - length (links c0))%nat
        with (slice_start links cs i + j)%nat by lia.
      rewrite (IH (S k) (counter + length (links c0))%nat i c j v Hc Hv).
      do 2 f_equal.
      replace (S k + i)%nat with (k + S i)%nat by lia.
      f_equal. lia.
Qed.

(** The value the stitched array holds for element [j] of core [i], when
    its position lies within the array: the raw value with some offset
    added by [add_offset]. *)
Lemma stitch_lookup fin snapshot kind out g i c j v :
  stitch fin snapshot kind = Ok out ->
  snap_lookup fin snapshot = Ok g ->
  (i < NCores fin)%nat ->
  Cores g !! i = Some c ->
  links_of kind c !! j = Some v ->
  (slice_start (links_of kind) (Cores g) i + j < length out)%nat ->
  exists off,
    out !! (slice_start (links_of kind) (Cores g) i + j)%nat
    = Some (add_offset off v).
Proof.
  intros Hrun Hg Hi Hc Hv Hin.
  rewrite (stitch_length _ _ _ _ _ Hrun Hg) in Hin.
  destruct (stitch_shape _ _ _ _ Hrun) as (g' & offs & Hg' & Hn & ->).
  assert (g' = g) by congruence. subst g'.
  assert (Hc' : take (NCores fin) (Cores g) !! i = Some c)
    by (rewrite lookup_take_lt by exact Hi; exact Hc).
  pose proof (stitched_body_lookup (links_of kind) offs _ 0%nat 0%nat
                i c j v Hc' Hv) as Hl.
  rewrite slice_start_take in Hl by lia.
  eexists. rewrite lookup_take_lt by exact Hin.
  rewrite lookup_app_l; [exact Hl|].
  apply lookup_lt_is_Some. rewrite Hl. eexists; reflexivity.
Qed.

Lemma add_offset_negative off v : v <= -1 -> add_offset off v = v.
Proof.
  intros Hv. unfold add_offset.
  destruct (Z.ltb_spec (-1) v); [lia | reflexivity].
Qed.

(** ** The offsets are the cumulative destination sizes *)

Lemma wrap32_small z : - 2 ^ 31 <= z < 2 ^ 31 -> wrap32 z = z.
Proof.
  intros H. unfold wrap32. rewrite Z.mod_small; lia.
Qed.

Lemma fill_core_counter_ok dest cs : forall k pre,
  length pre = S k ->
  (forall i, (i < length cs)%nat -> Cores dest !! (k + i)%nat = cs !! i) ->
  fill_core_counter dest (seq k (length cs)) (pre ++ replicate (length cs) 0)
  = Ok (pre ++ map (fun c => wrap32 (Z.of_nat (core_size c))) cs).
Proof.
  induction cs as [|c cs IH]; intros k pre Hpre Hcs.
  - reflexivity.
  - simpl length. simpl seq. simpl fill_core_counter.
    assert (Hc : core_lookup dest k = Ok c).
    { apply core_lookup_ok. specialize (Hcs 0%nat).
      rewrite Nat.add_0_r in Hcs. apply Hcs. simpl. lia. }
    rewrite Hc. simpl bind.
    rewrite insert_app_r_alt by lia.
    rewrite Hpre, Nat.sub_diag. simpl.
    change (pre ++ ?x :: ?l) with (pre ++ [x] ++ l).
    rewrite app_assoc.
    rewrite (IH (S k) (pre ++ [wrap32 (Z.of_nat (length (Galaxies c)))])).
    + rewrite <- app_assoc. reflexivity.
    + rewrite length_app, Hpre. simpl. lia.
    + intros i Hi. specialize (Hcs (S i)). simpl in Hcs.
      rewrite <- Hcs by lia. f_equal. lia.
Qed.

Lemma cumsum_from_sizes (l : list nat) : forall acc : nat,
  cumsum_from (Z.of_nat acc) (map Z.of_nat l)
  = map (fun i => Z.of_nat (acc + sum_list (take (S i) l))) (seq 0 (length l)).
Proof.
  induction l as [|x l IH]; intros acc; [reflexivity|].
  simpl length. simpl seq. simpl map. simpl cumsum_from.
  rewrite <- Nat2Z.inj_add. rewrite IH. f_equal.
  - f_equal. simpl. lia.
  - rewrite <- seq_shift, map_map. apply map_ext.
    intros i. f_equal. simpl. lia.
Qed.

Lemma core_offsets_ok n dest :
  (1 <= n)%nat ->
  (n - 1 <= length (Cores dest))%nat ->
  Forall (fun c => Z.of_nat (core_size c) < 2 ^ 31) (take (n - 1) (Cores dest)) ->
  core_offsets n dest
  = Ok (map (dest_offset (map core_size (Cores dest))) (seq 0 n)).
Proof.
  intros Hn Hlen Hsmall.
  destruct n as [|m]; [lia|].
  replace (S m - 1)%nat with m in * by lia.
  unfold core_offsets, np_zeros. simpl replicate.
  change (np_setitem (0 :: replicate m 0) 0 0) with (Ok (0 :: replicate m 0)).
  simpl bind.
  set (cs := take m (Cores dest)).
  assert (Hcs : length cs = m) by (unfold cs; rewrite length_take; lia).
  rewrite <- Hcs at 1 2.
  change (0 :: replicate (length cs) 0) with ([0] ++ replicate (length cs) 0).
  rewrite Nat.sub_0_r.
  rewrite fill_core_counter_ok.
  - simpl bind. f_equal. unfold cumsum. simpl app. simpl cumsum_from.
    simpl seq. simpl map. f_equal.
    assert (Hw : map (fun c => wrap32 (Z.of_nat (core_size c))) cs
                 = map Z.of_nat (map core_size cs)).
    { rewrite map_map. apply Forall_fmap_ext_1.
      eapply Forall_impl; [exact Hsmall|]. simpl.
      intros c Hc. apply wrap32_small. lia. }
    rewrite Hw. change (0 + 0) with (Z.of_nat 0).
    rewrite cumsum_from_sizes, length_map, Hcs.
    rewrite <- seq_shift, map_map.
    apply map_ext_in. intros i Hi. apply in_seq in Hi.
    unfold dest_offset. f_equal. simpl Nat.add.
    unfold cs.
    change (map core_size (take m (Cores dest)))
      with (core_size <$> take m (Cores dest)).
    rewrite fmap_take, take_take, Nat.min_l by lia.
    reflexivity.
  - reflexivity.
  - intros i Hi. unfold cs. rewrite lookup_take_lt by lia. reflexivity.
Qed.

(** ** The reference stitcher *)

Lemma add_offset_adjust dest_sizes i v :
  link_ok dest_sizes i v ->
  add_offset (dest_offset dest_sizes i) v = adjust_link dest_sizes i v.
Proof.
  intros [Hlo Hhi]. unfold add_offset, adjust_link.
  assert (0 <= dest_offset dest_sizes i) by (unfold dest_offset; lia).
  destruct (decide (v = -1)) as [->|Hne]; [reflexivity|].
  destruct (Z.ltb_spec (-1) v); [|lia].
  apply wrap32_small. lia.
Qed.

Lemma stitched_body_reference links offs (adj : nat -> Z -> Z) cs :
  forall k counter,
  (forall i c v, cs !! i = Some c -> v ∈ links c ->
     add_offset (offs (k + i)%nat (counter + slice_start links cs i)%nat) v
     = adj (k + i)%nat v) ->
  stitched_body links offs cs k counter
  = concat (imap (fun i c => map (adj (k + i)%nat) (links c)) cs).
Proof.
  induction cs as [|c cs IH]; intros k counter Hadj; [reflexivity|].
  simpl stitched_body. rewrite imap_cons. simpl concat. f_equal.
  - rewrite Nat.add_0_r. apply map_ext_in. intros v Hv.
    specialize (Hadj 0%nat c v eq_refl).
    change (slice_start links (c :: cs) 0) with 0%nat in Hadj.
    rewrite !Nat.add_0_r in Hadj. apply Hadj.
    apply list_elem_of_In. exact Hv.
  - rewrite (IH (S k) (counter + length (links c))%nat).
    + f_equal. apply imap_ext. intros i c' _. simpl.
      replace (S (k + i)) with (k + S i)%nat by lia. reflexivity.
    + intros i c' v Hc' Hv.
      specialize (Hadj (S i) c' v Hc' Hv).
      rewrite slice_start_cons in Hadj.
      replace (S k + i)%nat with (k + S i)%nat by lia.
      rewrite <- Hadj. do 2 f_equal. lia.
Qed.

Lemma links_total_sizes links cs :
  Forall (fun c => length (links c) = core_size c) cs ->
  links_total links cs = sum_list (map core_size cs).
Proof.
  unfold links_total. induction 1 as [|c cs Hc _ IH]; simpl; [reflexivity|].
  rewrite Hc, IH. reflexivity.
Qed.

Lemma nth_map_seq {A : Type} (f : nat -> A) (n i : nat) (d : A) :
  (i < n)%nat -> nth i (map f (seq 0 n)) d = f i.
Proof.
  intros Hi. apply nth_lookup_Some.
  change (map f (seq 0 n)) with (f <$> seq 0 n).
  rewrite list_lookup_fmap, lookup_seq_lt by exact Hi. reflexivity.
Qed.

(** The stitched array of a catalogue whose partitions hold what its
    metadata declares. *)
Lemma stitch_loop_reference links offset_of offs g dest_sizes :
  (forall i c, (i < length (Cores g))%nat -> offset_of i c = Ok (offs i c)) ->
  (forall i c v, Cores g !! i = Some c -> v ∈ links c ->
     add_offset (offs i (slice_start links (Cores g) i)) v
     = adjust_link dest_sizes i v) ->
  NGalaxies g = links_total links (Cores g) ->
  stitch_loop links offset_of g (seq 0 (length (Cores g)))
    (np_zeros (NGalaxies g)) 0
  = Ok (reference_stitch (map links (Cores g)) dest_sizes).
Proof.
  intros Hoff Hadj Htot.
  rewrite (stitch_loop_ok links offset_of offs g (Cores g) 0 _ 0).
  - f_equal. rewrite splice_zeros, stitched_body_length, Htot, Nat.sub_diag.
    simpl replicate. rewrite app_nil_r.
    rewrite (stitched_body_reference links offs (adjust_link dest_sizes)).
    + unfold reference_stitch.
      change (map links (Cores g)) with (links <$> Cores g).
      rewrite imap_fmap. reflexivity.
    + intros i c v Hc Hv. simpl. apply (Hadj i c v Hc Hv).
  - intros i _. reflexivity.
  - intros i c Hi. apply Hoff. simpl in Hi. lia.
  - unfold np_zeros. rewrite length_replicate. lia.
Qed.

(** ** Running the readers *)

Lemma core_offsets_total n dest :
  (1 <= n)%nat ->
  (n - 1 <= length (Cores dest))%nat ->
  exists pcc, core_offsets n dest = Ok pcc.
Proof.
  intros Hn Hlen. destruct n as [|m]; [lia|].
  replace (S m - 1)%nat with m in * by lia.
  unfold core_offsets, np_zeros. simpl replicate.
  change (np_setitem (0 :: replicate m 0) 0 0) with (Ok (0 :: replicate m 0)).
  simpl bind.
  pose proof (fill_core_counter_ok dest (take m (Cores dest)) 0 [0] eq_refl)
    as Hfill.
  rewrite length_take, Nat.min_l in Hfill by lia.
  simpl app in Hfill. rewrite Nat.sub_0_r, Hfill.
  - simpl bind. eexists. reflexivity.
  - intros i Hi. rewrite lookup_take_lt by lia. reflexivity.
Qed.

Lemma stitch_loop_take links offset_of offs g n N :
  (n <= length (Cores g))%nat ->
  (forall i c, (i < n)%nat -> offset_of i c = Ok (offs i c)) ->
  (links_total links (take n (Cores g)) <= N)%nat ->
  stitch_loop links offset_of g (seq 0 n) (np_zeros N) 0
  = Ok (stitched_body links offs (take n (Cores g)) 0 0
          ++ replicate (N - links_total links (take n (Cores g))) 0).
Proof.
  intros Hn Hoff Hfit.
  assert (Hlt : length (take n (Cores g)) = n) by (rewrite length_take; lia).
  rewrite <- Hlt at 1.
  rewrite (stitch_loop_ok links offset_of offs).
  - rewrite splice_zeros, stitched_body_length. reflexivity.
  - intros i Hi. rewrite Hlt in Hi. simpl.
    rewrite lookup_take_lt by exact Hi. reflexivity.
  - intros i c Hi. apply Hoff. lia.
  - unfold np_zeros. rewrite length_replicate. lia.
Qed.

(** A reader returns whenever the groups it opens exist and the link
    values fit into the declared total. *)
Lemma stitch_succeeds fin snapshot kind g :
  snap_lookup fin snapshot = Ok g ->
  (NCores fin <= length (Cores g))%nat ->
  dest_ready fin snapshot kind ->
  (links_total (links_of kind) (take (NCores fin) (Cores g)) <= NGalaxies g)%nat ->
  exists offs,
    stitch fin snapshot kind
    = Ok (stitched_body (links_of kind) offs (take (NCores fin) (Cores g)) 0 0
            ++ replicate
                 (NGalaxies g
                  - links_total (links_of kind) (take (NCores fin) (Cores g))) 0).
Proof.
  intros Hg Hn Hready Hfit.
  destruct kind; simpl in Hready; simpl stitch.
  - destruct Hready as (H1 & d & Hd & Hdn).
    destruct (core_offsets_total _ _ H1 Hdn) as (pcc & Hpcc).
    exists (counter_offs pcc).
    unfold read_firstprogenitor_indices. rewrite Hg. simpl bind.
    simpl in Hd. rewrite Hd. simpl bind. rewrite Hpcc. simpl bind.
    apply stitch_loop_take; try assumption.
    intros i c Hi. apply counter_offset_ok.
    apply core_offsets_length in Hpcc. lia.
  - exists own_offs.
    unfold read_nextprogenitor_indices. rewrite Hg. simpl bind.
    apply stitch_loop_take; try assumption. reflexivity.
  - destruct Hready as (H1 & d & Hd & Hdn).
    destruct (core_offsets_total _ _ H1 Hdn) as (pcc & Hpcc).
    exists (counter_offs pcc).
    unfold read_descendant_indices. rewrite Hg. simpl bind.
    simpl in Hd. rewrite Hd. simpl bind. rewrite Hpcc. simpl bind.
    apply stitch_loop_take; try assumption.
    intros i c Hi. apply counter_offset_ok.
    apply core_offsets_length in Hpcc. lia.
Qed.

(** ** Properties of the stitched link arrays *)

(** C1. On a catalogue whose snapshot and destination snapshot hold one
    partition per core, one link per galaxy, as many links as the declared
    total, and link values that are the sentinel or indices staying within
    an ['i4'] once offset, the stitched array of every link kind equals the
    reference array: the partitions' raw values in increasing partition
    order, every non-sentinel value of partition [i] moved by the sum of
    the destination partition sizes [0..i-1] (previous snapshot for
    FirstProgenitor, next for Descendant, own for NextProgenitor). *)
Theorem stitch_equals_reference fin snapshot kind g d :
  snap_lookup fin snapshot = Ok g ->
  snap_lookup fin (dest_snapshot kind snapshot) = Ok d ->
  (1 <= NCores fin)%nat ->
  length (Cores g) = NCores fin ->
  length (Cores d) = NCores fin ->
  NGalaxies g = links_total (links_of kind) (Cores g) ->
  Forall (fun c => length (links_of kind c) = core_size c) (Cores g) ->
  Forall (fun c => Z.of_nat (core_size c) < 2 ^ 31) (Cores d) ->
  (forall i c, Cores g !! i = Some c ->
     Forall (link_ok (map core_size (Cores d)) i) (links_of kind c)) ->
  stitch fin snapshot kind
  = Ok (reference_stitch (map (links_of kind) (Cores g))
          (map core_size (Cores d))).
Proof.
  intros Hg Hd Hn Hlg Hld Htot Hone Hsmall Hlinks.
  assert (Hadj : forall offs,
            (forall i, (i < length (Cores g))%nat ->
               offs i (slice_start (links_of kind) (Cores g) i)
               = dest_offset (map core_size (Cores d)) i) ->
            forall i c v, Cores g !! i = Some c -> v ∈ links_of kind c ->
              add_offset (offs i (slice_start (links_of kind) (Cores g) i)) v
              = adjust_link (map core_size (Cores d)) i v).
  { intros offs Hoffs i c v Hc Hv.
    rewrite Hoffs by (apply (lookup_lt_Some _ _ _ Hc)).
    apply add_offset_adjust.
    apply (proj1 (Forall_forall _ _) (Hlinks i c Hc) v Hv). }
  assert (Hpcc : core_offsets (length (Cores g)) d
                 = Ok (map (dest_offset (map core_size (Cores d)))
                         (seq 0 (length (Cores g))))).
  { apply core_offsets_ok; [lia | lia | apply Forall_take; exact Hsmall]. }
  destruct kind; simpl stitch; simpl dest_snapshot in Hd.
  - unfold read_firstprogenitor_indices.
    rewrite Hg. simpl bind. rewrite Hd. simpl bind.
    rewrite <- Hlg, Hpcc. simpl bind.
    apply stitch_loop_reference with
      (offs := counter_offs (map (dest_offset (map core_size (Cores d)))
                               (seq 0 (length (Cores g))))).
    + intros i c Hi. apply counter_offset_ok.
      rewrite length_map, length_seq. exact Hi.
    + apply Hadj. intros i Hi. unfold counter_offs.
      apply nth_map_seq. exact Hi.
    + exact Htot.
  - assert (d = g) by congruence. subst d.
    unfold read_nextprogenitor_indices.
    rewrite Hg. simpl bind. rewrite <- Hlg.
    apply stitch_loop_reference with (offs := own_offs).
    + reflexivity.
    + apply Hadj. intros i Hi. unfold own_offs, dest_offset, slice_start.
      f_equal. rewrite links_total_sizes by (apply Forall_take; exact Hone).
      change (map core_size (take i (Cores g)))
        with (core_size <$> take i (Cores g)).
      rewrite fmap_take. reflexivity.
    + exact Htot.
  - unfold read_descendant_indices.
    rewrite Hg. simpl bind. rewrite Hd. simpl bind.
    rewrite <- Hlg, Hpcc. simpl bind.
    apply stitch_loop_reference with
      (offs := counter_offs (map (dest_offset (map core_size (Cores d)))
                               (seq 0 (length (Cores g))))).
    + intros i c Hi. apply counter_offset_ok.
      rewrite length_map, length_seq. exact Hi.
    + apply Hadj. intros i Hi. unfold counter_offs.
      apply nth_map_seq. exact Hi.
    + exact Htot.
Qed.

Lemma demo_snap1 :
  snap_lookup demo_catalog 1
  = Ok (mkSnap 3 [ mkCore [gal 110; gal 111] [-1; -1] [-1; -1] [0; 1]
                 ; mkCore [gal 112] [-1] [-1] [0] ]).
Proof. reflexivity. Qed.

Lemma demo_snap2 :
  snap_lookup demo_catalog 2
  = Ok (mkSnap 3 [ mkCore [gal 120; gal 121] [0; 1] [1; -1] [0; 0]
                 ; mkCore [gal 122] [0] [-1] [0] ]).
Proof. reflexivity. Qed.

Lemma stitch_equals_reference_witness :
  stitch demo_catalog 2 FirstProgenitor = Ok [0; 1; 2].
Proof.
  apply (stitch_equals_reference demo_catalog 2 FirstProgenitor _ _
           demo_snap2 demo_snap1).
  - simpl. lia.
  - reflexivity.
  - reflexivity.
  - reflexivity.
  - repeat constructor.
  - repeat constructor.
  - intros i c Hc.
    destruct i as [|[|i]]; simpl in Hc; inversion Hc; subst; clear Hc;
      repeat constructor; vm_compute; congruence.
Defined.

(** C2. Whenever a reader returns, every raw element equal to the sentinel
    -1 that has a position in the stitched array (its index in the core's
    link array counted from the start of that core's slice) stands there
    as -1: no offset is added to a sentinel. *)
Theorem stitch_keeps_sentinel fin snapshot kind out g i c j :
  stitch fin snapshot kind = Ok out ->
  snap_lookup fin snapshot = Ok g ->
  (i < NCores fin)%nat ->
  Cores g !! i = Some c ->
  links_of kind c !! j = Some (-1) ->
  (slice_start (links_of kind) (Cores g) i + j < length out)%nat ->
  out !! (slice_start (links_of kind) (Cores g) i + j)%nat = Some (-1)
  /\ forall off, add_offset off (-1) = -1.
Proof.
  intros Hrun Hg Hi Hc Hv Hin.
  destruct (stitch_lookup _ _ _ _ _ _ _ _ _ Hrun Hg Hi Hc Hv Hin) as (off & ->).
  split.
  - rewrite add_offset_negative by lia. reflexivity.
  - intros off'. apply add_offset_negative. lia.
Qed.

Lemma stitch_keeps_sentinel_witness :
  [1; -1; -1] !! 2%nat = Some (-1) /\ forall off, add_offset off (-1) = -1.
Proof.
  apply (stitch_keeps_sentinel demo_catalog 2 NextProgenitor [1; -1; -1]
           _ 1%nat (mkCore [gal 122] [0] [-1] [0]) 0%nat
           eq_refl demo_snap2).
  - simpl. lia.
  - reflexivity.
  - reflexivity.
  - simpl. lia.
Defined.

(** C9. Whenever a reader returns, every raw element strictly below -1
    that has a position in the stitched array stands there unchanged: the
    offset is added only to elements strictly greater than -1. The
    element is an int32 value, as an ['i4'] link dataset holds it: the
    read of a wider value into the ['i4'] buffer would not keep it. *)
Theorem stitch_keeps_negative fin snapshot kind out g i c j v :
  stitch fin snapshot kind = Ok out ->
  snap_lookup fin snapshot = Ok g ->
  (i < NCores fin)%nat ->
  Cores g !! i = Some c ->
  links_of kind c !! j = Some v ->
  (slice_start (links_of kind) (Cores g) i + j < length out)%nat ->
  - 2 ^ 31 <= v < -1 ->
  out !! (slice_start (links_of kind) (Cores g) i + j)%nat = Some v
  /\ forall off, add_offset off v = v.
Proof.
  intros Hrun Hg Hi Hc Hv Hin Hneg.
  destruct (stitch_lookup _ _ _ _ _ _ _ _ _ Hrun Hg Hi Hc Hv Hin) as (off & ->).
  split.
  - rewrite add_offset_negative by lia. reflexivity.
  - intros off'. apply add_offset_negative. lia.
Qed.

Lemma odd_snap1 :
  snap_lookup odd_catalog 1
  = Ok (mkSnap 2 [ mkCore [gal 110] [0] [-1] [-1]
                 ; mkCore [gal 111] [-2] [-1] [-1] ]).
Proof. reflexivity. Qed.

Lemma stitch_keeps_negative_witness :
  [0; -2] !! 1%nat = Some (-2) /\ forall off, add_offset off (-2) = -2.
Proof.
  apply (stitch_keeps_negative odd_catalog 1 FirstProgenitor [0; -2]
           _ 1%nat (mkCore [gal 111] [-2] [-1] [-1]) 0%nat (-2)
           eq_refl odd_snap1).
  - simpl. lia.
  - reflexivity.
  - reflexivity.
  - simpl. lia.
  - lia.
Defined.

Lemma snap_lookup_raises fin snapshot e :
  snap_lookup fin snapshot = Raise e -> e = KeyError.
Proof.
  unfold snap_lookup. destruct (_ <? 0); [congruence|].
  destruct (Snaps fin !! _); congruence.
Qed.

Lemma snap_lookup_nonneg fin snapshot g :
  snap_lookup fin snapshot = Ok g -> 0 <= snapshot.
Proof.
  unfold snap_lookup.
  destruct (Z.ltb_spec snapshot 0); [discriminate | lia].
Qed.

(** C6, the claim fails: NextProgenitor links of snapshot 0 are read
    without error. *)
Lemma nextprogenitor_at_snapshot_0 :
  stitch demo_catalog 0 NextProgenitor = Ok [-1; -1].
Proof. reflexivity. Qed.

(** C6, amended. FirstProgenitor links at snapshot 0 and Descendant links
    at the last snapshot raise [KeyError]; NextProgenitor links at
    snapshot 0 are read from the snapshot's own cores alone and are
    returned whenever those cores exist and their link values fit into the
    declared total. *)
Theorem stitch_boundary fin :
  stitch fin 0 FirstProgenitor = Raise KeyError
  /\ stitch fin (Z.of_nat (length (Snaps fin)) - 1) Descendant = Raise KeyError
  /\ forall g,
       snap_lookup fin 0 = Ok g ->
       (NCores fin <= length (Cores g))%nat ->
       (links_total NextProgenitorIndices (take (NCores fin) (Cores g))
        <= NGalaxies g)%nat ->
       is_ok (stitch fin 0 NextProgenitor) = true.
Proof.
  split; [|split].
  - simpl. unfold read_firstprogenitor_indices.
    destruct (snap_lookup fin 0) as [g|e] eqn:Hg; simpl.
    + reflexivity.
    + apply snap_lookup_raises in Hg. congruence.
  - simpl. unfold read_descendant_indices.
    destruct (snap_lookup fin (Z.of_nat (length (Snaps fin)) - 1))
      as [g|e] eqn:Hg; simpl.
    + replace (Z.of_nat (length (Snaps fin)) - 1 + 1)
        with (Z.of_nat (length (Snaps fin))) by lia.
      unfold snap_lookup.
      destruct (Z.ltb_spec (Z.of_nat (length (Snaps fin))) 0); [lia|].
      rewrite Nat2Z.id.
      rewrite (proj2 (lookup_ge_None (Snaps fin) (length (Snaps fin))))
        by lia.
      reflexivity.
    + apply snap_lookup_raises in Hg. congruence.
  - intros g Hg Hn Hfit.
    destruct (stitch_succeeds fin 0 NextProgenitor g Hg Hn I Hfit) as (offs & ->).
    reflexivity.
Qed.

Lemma stitch_boundary_witness :
  stitch demo_catalog 0 FirstProgenitor = Raise KeyError
  /\ stitch demo_catalog 4 Descendant = Raise KeyError
  /\ is_ok (stitch demo_catalog 0 NextProgenitor) = true.
Proof.
  destruct (stitch_boundary demo_catalog) as (H1 & H2 & H3).
  split; [exact H1|]. split; [exact H2|].
  apply (H3 (mkSnap 2 [ mkCore [gal 100] [-1] [-1] [-1]
                      ; mkCore [gal 101] [-1] [-1] [-1] ])).
  - reflexivity.
  - simpl. lia.
  - simpl. lia.
Defined.

(** C7, the claim fails: snapshot 1 of [short_catalog] declares three
    galaxies, its cores hold two FirstProgenitor values, and the reader
    returns. *)
Lemma short_total_is_accepted :
  snap_lookup short_catalog 1
  = Ok (mkSnap 3 [ mkCore [gal 110] [0] [-1] [-1]
                 ; mkCore [gal 111] [0] [-1] [-1] ])
  /\ links_total FirstProgenitorIndices
       [ mkCore [gal 110] [0] [-1] [-1]; mkCore [gal 111] [0] [-1] [-1] ]
     = 2%nat
  /\ stitch short_catalog 1 FirstProgenitor = Ok [0; 1; 0].
Proof. repeat split. Qed.

(** C7, amended. The readers compare no sizes. When the link values of
    the cores number fewer than the declared total, and the groups the
    reader opens exist, the reader returns: the array has the declared
    length and its slots past the link values keep the zeros of the
    allocation. When they number more, a reader that returns gives the
    stitched values cut at the declared total. *)
Theorem stitch_size_mismatch fin snapshot kind g :
  snap_lookup fin snapshot = Ok g ->
  let total := links_total (links_of kind) (take (NCores fin) (Cores g)) in
  ((total < NGalaxies g)%nat ->
   (NCores fin <= length (Cores g))%nat ->
   dest_ready fin snapshot kind ->
   exists out,
     stitch fin snapshot kind = Ok out
     /\ length out = NGalaxies g
     /\ drop total out = replicate (NGalaxies g - total) 0)
  /\ ((NGalaxies g < total)%nat ->
      forall out,
        stitch fin snapshot kind = Ok out ->
        exists offs,
          out = take (NGalaxies g)
                  (stitched_body (links_of kind) offs
                     (take (NCores fin) (Cores g)) 0 0)).
Proof.
  intros Hg total. subst total. split.
  - intros Hless Hn Hready.
    destruct (stitch_succeeds fin snapshot kind g Hg Hn Hready)
      as (offs & Hrun); [lia|].
    eexists. split; [exact Hrun|]. split.
    + rewrite length_app, stitched_body_length, length_replicate. lia.
    + rewrite drop_app_length'
        by (rewrite stitched_body_length; reflexivity).
      reflexivity.
  - intros Hmore out Hrun.
    destruct (stitch_shape _ _ _ _ Hrun) as (g' & offs & Hg' & _ & ->).
    assert (g' = g) by congruence. subst g'.
    exists offs.
    replace (NGalaxies g
             - links_total (links_of kind) (take (NCores fin) (Cores g)))%nat
      with 0%nat by lia.
    simpl replicate. rewrite app_nil_r. reflexivity.
Qed.

Lemma stitch_size_mismatch_witness :
  exists out,
    stitch short_catalog 1 FirstProgenitor = Ok out
    /\ length out = 3%nat
    /\ drop 2 out = [0].
Proof.
  destruct (stitch_size_mismatch short_catalog 1 FirstProgenitor
              (mkSnap 3 [ mkCore [gal 110] [0] [-1] [-1]
                        ; mkCore [gal 111] [0] [-1] [-1] ]) eq_refl)
    as (H & _).
  apply H.
  - simpl. lia.
  - simpl. lia.
  - simpl. split; [lia|]. eexists. split; [reflexivity | simpl; lia].
Defined.

(** ** Fetching one record *)

Section RecordFetch.

Variable uninit : galaxy.

Lemma read_one_loop_total snap ind m : forall k G total_read,
  (forall i, (i < m)%nat -> is_Some (Cores snap !! (k + i)%nat)) ->
  length G = 1%nat ->
  exists r, read_one_loop snap ind (seq k m) G total_read = Ok [r].
Proof.
  induction m as [|m IH]; intros k G total_read Hcores HG.
  - destruct G as [|x [|y G]]; simpl in HG; try lia.
    exists x. reflexivity.
  - simpl seq. simpl read_one_loop.
    destruct (Hcores 0%nat ltac:(lia)) as (c & Hc).
    rewrite Nat.add_0_r in Hc.
    rewrite (proj2 (core_lookup_ok snap k c) Hc). simpl bind.
    destruct (_ && _) eqn:Hin.
    + apply andb_true_iff in Hin as (Hlo & Hhi).
      apply Z.leb_le in Hlo. apply Z.ltb_lt in Hhi.
      destruct (lookup_lt_is_Some_2 (Galaxies c)
                  (Z.to_nat (ind - Z.of_nat total_read)) ltac:(lia))
        as (g & Hg).
      rewrite (np_index_nat _ _ _ Hg). simpl bind.
      destruct G as [|x [|y G]]; simpl in HG; try lia.
      eexists. reflexivity.
    + apply IH; [|exact HG].
      intros i Hi. specialize (Hcores (S i) ltac:(lia)).
      replace (S k + i)%nat with (k + S i)%nat by lia. exact Hcores.
Qed.

(** [read_gals] with one index returns one record whenever the snapshot
    has galaxies and the groups of its cores exist. *)
Lemma read_gals_one_total fin snapshot ind g :
  snap_lookup fin snapshot = Ok g ->
  NGalaxies g <> 0%nat ->
  (1 <= NCores fin <= length (Cores g))%nat ->
  exists r, read_gals uninit fin snapshot (Some ind) = Ok [r].
Proof.
  intros Hg Hne Hn. unfold read_gals.
  pose proof (snap_lookup_nonneg _ _ _ Hg) as Hs.
  destruct (Z.ltb_spec snapshot 0); [lia|]. simpl bind.
  rewrite Hg. simpl bind.
  destruct (Nat.eqb_spec (NGalaxies g) 0); [contradiction|].
  destruct (lookup_lt_is_Some_2 (Cores g) 0 ltac:(lia)) as (c0 & Hc0).
  rewrite (proj2 (core_lookup_ok g 0 c0) Hc0). simpl bind.
  apply read_one_loop_total; [|reflexivity].
  intros i Hi. apply lookup_lt_is_Some_2. lia.
Qed.

End RecordFetch.

(** What a successful [read_firstprogenitor_indices] tells about the
    file. *)
Lemma read_firstprogenitor_facts fin snapshot fp_ind :
  read_firstprogenitor_indices fin snapshot = Ok fp_ind ->
  1 <= snapshot
  /\ exists g, snap_lookup fin snapshot = Ok g
       /\ (1 <= NCores fin <= length (Cores g))%nat
       /\ length fp_ind = NGalaxies g.
Proof.
  intros H.
  destruct (stitch_shape fin snapshot FirstProgenitor fp_ind H)
    as (g & offs & Hg & Hn & _).
  pose proof (stitch_length fin snapshot FirstProgenitor fp_ind g H Hg) as Hl.
  unfold read_firstprogenitor_indices in H.
  rewrite Hg in H. simpl bind in H.
  apply bind_ok_inv in H as (pg & Hpg & H).
  apply bind_ok_inv in H as (pcc & Hpcc & H).
  apply core_offsets_length in Hpcc as (_ & H1).
  apply snap_lookup_nonneg in Hpg.
  split; [lia|]. exists g. split; [exact Hg|]. split; [lia | exact Hl].
Qed.

Lemma np_index_in_range {A : Type} (a : list A) (i : Z) (x : A) :
  np_index a i = Ok x -> (0 < length a)%nat.
Proof.
  unfold np_index. destruct (_ || _); [discriminate|].
  destruct (a !! _) eqn:H; [|discriminate].
  intros _. apply lookup_lt_Some in H. lia.
Qed.

(** ** The backward loop *)

Lemma range_down_succ s : 0 <= s -> range_down (s + 1) = s :: range_down s.
Proof.
  intros Hs. unfold range_down.
  replace (Z.to_nat (s + 1)) with (S (Z.to_nat s)) by lia.
  rewrite seq_S, rev_app_distr. simpl. f_equal. lia.
Qed.

Lemma np_setitem_Z {A : Type} (a : list A) (i : Z) (x : A) :
  0 <= i ->
  (Z.to_nat i < length a)%nat ->
  np_setitem a i x = Ok (<[Z.to_nat i := x]> a).
Proof.
  intros Hi Hlt. rewrite <- (Z2Nat.id i) at 1 by exact Hi.
  apply np_setitem_nat. exact Hlt.
Qed.

Section BackwardLoop.

Variable uninit : galaxy.


End BackwardLoop.

(** ** The backward phase *)

Lemma where_id_ok gals gal_id start_ind :
  where_id gals gal_id = Ok start_ind ->
  exists g, gals !! start_ind = Some g /\ ID g = gal_id.
Proof.
  unfold where_id.
  destruct (list_find _ gals) as [[i x]|] eqn:Hfind; [|discriminate].
  intros [= <-]. apply list_find_Some in Hfind as (Hx & HP & _).
  exists x. split; assumption.
Qed.

Lemma np_zeros_rec_ok n :
  0 <= n -> np_zeros_rec n = Ok (replicate (Z.to_nat n) zero_galaxy).
Proof.
  intros Hn. unfold np_zeros_rec.
  destruct (Z.ltb_spec n 0); [lia | reflexivity].
Qed.

Section BackwardPhase.

Variable uninit : galaxy.

(** The steps of [backward_phase] before the first look at the
    FirstProgenitor array. *)
Lemma backward_phase_start fin gal_id snapshot future_snapshot gals start_ind :
  read_gals uninit fin snapshot None = Ok gals ->
  where_id gals gal_id = Ok start_ind ->
  0 <= snapshot <= future_snapshot ->
  exists g,
    gals !! start_ind = Some g
    /\ backward_phase uninit fin gal_id snapshot future_snapshot
       = (let history :=
            <[Z.to_nat snapshot := g]>
              (replicate (Z.to_nat (future_snapshot + 1)) zero_galaxy) in
          let* fp_ind := read_firstprogenitor_indices fin snapshot in
          let* ind := np_index fp_ind (Z.of_nat start_ind) in
          if ind =? -1 then Raise Warning else
          let* history :=
            backward_loop uninit fin (range_down snapshot) history ind in
          Ok (history, start_ind)).
Proof.
  intros Hgals Hid Hs.
  destruct (where_id_ok _ _ _ Hid) as (g & Hg & _).
  exists g. split; [exact Hg|].
  unfold backward_phase. rewrite Hgals. cbn [bind]. rewrite Hid. cbn [bind].
  rewrite np_zeros_rec_ok by lia. cbn [bind].
  rewrite (np_index_nat _ _ _ Hg). cbn [bind].
  rewrite np_setitem_Z by (rewrite ?length_replicate; lia).
  reflexivity.
Qed.

(** C5, amended. A galaxy whose stitched FirstProgenitor value at its own
    starting snapshot is -1 makes [galaxy_history] raise the exception
    [Warning]: the call is aborted after the starting record has been
    stored, and no history is returned. *)
Theorem no_progenitor_raises fin gal_id snapshot future_snapshot pandas
    gals start_ind fp_ind :
  read_gals uninit fin snapshot None = Ok gals ->
  where_id gals gal_id = Ok start_ind ->
  snapshot <= effective_future snapshot future_snapshot ->
  read_firstprogenitor_indices fin snapshot = Ok fp_ind ->
  np_index fp_ind (Z.of_nat start_ind) = Ok (-1) ->
  galaxy_history uninit fin gal_id snapshot future_snapshot pandas
  = Raise Warning.
Proof.
  intros Hgals Hid Hfut Hfp Hidx.
  destruct (read_firstprogenitor_facts _ _ _ Hfp) as (Hs & _).
  destruct (backward_phase_start fin gal_id snapshot
              (effective_future snapshot future_snapshot) gals start_ind
              Hgals Hid ltac:(lia)) as (g & _ & Hphase).
  unfold galaxy_history. rewrite Hphase. cbn zeta.
  rewrite Hfp. cbn [bind]. rewrite Hidx. reflexivity.
Qed.


End BackwardPhase.

(** ** The forward loop *)

Section ForwardLoop.

Variable uninit : galaxy.

(** What an iteration that stays in the loop has done. *)
Lemma forward_step_continue fin future_snapshot snap st st1 :
  forward_step uninit fin future_snapshot snap st = Ok (inr st1) ->
  (exists desc_ind,
     read_descendant_indices fin (snap - 1) = Ok desc_ind
     /\ np_index desc_ind (fw_ind st) = Ok (fw_ind st1)
     /\ fw_ind st1 <> -1)
  /\ ((future_snapshot <= snap /\ fw_merged st1 = fw_merged st)
      \/ (snap < future_snapshot
          /\ exists fp_ind fp,
               read_firstprogenitor_indices fin snap = Ok fp_ind
               /\ np_index fp_ind (fw_ind st1) = Ok fp
               /\ fw_merged st1
                  = if negb (fp =? fw_ind st) && (fw_merged st =? -1)
                    then snap else fw_merged st)).
Proof.
  unfold forward_step. intros H.
  apply bind_ok_inv in H as (desc_ind & Hdesc & H).
  apply bind_ok_inv in H as (ind & Hind & H).
  destruct (Z.eqb_spec ind (-1)) as [?|Hne]; [discriminate|].
  apply bind_ok_inv in H as (merged & Hm & H).
  apply bind_ok_inv in H as (G & HG & H).
  apply bind_ok_inv in H as (history & Hh & H).
  injection H as <-. cbn [fw_ind fw_merged].
  split; [exists desc_ind; repeat split; assumption|].
  destruct (Z.ltb_spec snap future_snapshot) as [Hlt|Hge].
  - right. split; [exact Hlt|].
    apply bind_ok_inv in Hm as (fp_ind & Hfp & Hm).
    apply bind_ok_inv in Hm as (fp & Hfpv & Hm).
    exists fp_ind, fp. repeat split; try assumption.
    destruct (negb (fp =? fw_ind st) && (fw_merged st =? -1));
      injection Hm as <-; reflexivity.
  - left. injection Hm as <-. split; [exact Hge | reflexivity].
Qed.

(** An iteration that leaves the loop does not touch the marker. *)
Lemma forward_step_break fin future_snapshot snap st st1 :
  forward_step uninit fin future_snapshot snap st = Ok (inl st1) ->
  fw_merged st1 = fw_merged st.
Proof.
  unfold forward_step. intros H.
  apply bind_ok_inv in H as (desc_ind & Hdesc & H).
  apply bind_ok_inv in H as (ind & Hind & H).
  destruct (ind =? -1).
  - injection H as <-. reflexivity.
  - apply bind_ok_inv in H as (merged & _ & H).
    apply bind_ok_inv in H as (G & _ & H).
    apply bind_ok_inv in H as (history & _ & H).
    discriminate.
Qed.

(** A recorded merge survives an iteration. *)
Lemma forward_step_sticky fin future_snapshot snap st r :
  forward_step uninit fin future_snapshot snap st = Ok r ->
  fw_merged st <> -1 ->
  fw_merged (match r with inl s => s | inr s => s end) = fw_merged st.
Proof.
  intros H Hm. destruct r as [st1|st1].
  - apply (forward_step_break _ _ _ _ _ H).
  - destruct (forward_step_continue _ _ _ _ _ H)
      as (_ & [(_ & ->)|(_ & fp_ind & fp & _ & _ & ->)]); [reflexivity|].
    destruct (Z.eqb_spec (fw_merged st) (-1)) as [?|_]; [contradiction|].
    rewrite andb_false_r. reflexivity.
Qed.

(** A recorded merge survives the rest of the loop. *)
Lemma forward_loop_sticky fin future_snapshot snaps : forall st st',
  forward_loop uninit fin future_snapshot snaps st = Ok st' ->
  fw_merged st <> -1 ->
  fw_merged st' = fw_merged st.
Proof.
  induction snaps as [|snap rest IH]; intros st st' H Hm.
  - injection H as <-. reflexivity.
  - cbn [forward_loop] in H.
    apply bind_ok_inv in H as (r & Hstep & H).
    pose proof (forward_step_sticky _ _ _ _ _ Hstep Hm) as Hkeep.
    destruct r as [st1|st1]; cbn in Hkeep.
    + injection H as <-. exact Hkeep.
    + rewrite (IH st1 st' H) by congruence. exact Hkeep.
Qed.

(** A loop entered without a merge ends without one, or with a snapshot
    at which a divergence was detected. *)
Lemma forward_loop_detects fin future_snapshot snaps : forall st st',
  forward_loop uninit fin future_snapshot snaps st = Ok st' ->
  fw_merged st = -1 ->
  fw_merged st' = -1
  \/ divergence_detected uninit fin future_snapshot snaps st (fw_merged st').
Proof.
  induction snaps as [|snap rest IH]; intros st st' H Hnone.
  - injection H as <-. left. exact Hnone.
  - cbn [forward_loop] in H.
    apply bind_ok_inv in H as (r & Hstep & H).
    destruct r as [st1|st1].
    + injection H as <-. left.
      rewrite (forward_step_break _ _ _ _ _ Hstep). exact Hnone.
    + assert (Hlater : fw_merged st1 = -1 ->
                fw_merged st' = -1
                \/ divergence_detected uninit fin future_snapshot
                     (snap :: rest) st (fw_merged st')).
      { intros Hnone1.
        destruct (IH st1 st' H Hnone1)
          as [Hm|(pre & post & sa & sb & fpi & fp & -> & Hrun & Hrest)];
          [left; exact Hm|].
        right. exists (snap :: pre), post, sa, sb, fpi, fp.
        split; [reflexivity|]. split; [|exact Hrest].
        econstructor; eassumption. }
      destruct (forward_step_continue _ _ _ _ _ Hstep)
        as (_ & [(_ & Hsame)|(Hlt & fp_ind & fp & Hfp & Hfpv & Hm)]).
      * apply Hlater. congruence.
      * rewrite Hnone in Hm.
        destruct (Z.eqb_spec fp (fw_ind st)) as [Heq|Hdiff]; cbn in Hm.
        -- apply Hlater. exact Hm.
        -- right.
           pose proof (read_firstprogenitor_facts _ _ _ Hfp) as (Hpos & _).
           rewrite (forward_loop_sticky _ _ _ _ _ H) by lia.
           rewrite Hm.
           exists [], rest, st, st1, fp_ind, fp.
           repeat split; try assumption. constructor.
Qed.

End ForwardLoop.

(** ** What [galaxy_history] returns *)

Section Returns.

Variable uninit : galaxy.

(** C8. A call of [galaxy_history] that returns gives the history alone,
    the buffer as the backward phase left it, exactly when
    [future_snapshot], with the default -1 replaced by the start snapshot,
    equals the start snapshot; otherwise it gives the history of the
    forward phase together with [merged_snapshot], which is -1 unless the
    forward walk detected a divergence at that snapshot. *)
Theorem history_alone_iff_no_future fin gal_id snapshot future_snapshot pandas r :
  galaxy_history uninit fin gal_id snapshot future_snapshot pandas = Ok r ->
  effective_future snapshot (-1) = snapshot
  /\ exists start_ind history,
       backward_phase uninit fin gal_id snapshot
         (effective_future snapshot future_snapshot)
       = Ok (history, start_ind)
       /\ ((effective_future snapshot future_snapshot = snapshot
            /\ r = HistoryOnly history)
           \/ (effective_future snapshot future_snapshot <> snapshot
               /\ exists st,
                    forward_phase uninit fin snapshot
                      (effective_future snapshot future_snapshot)
                      history start_ind = Ok st
                    /\ r = HistoryMerged (fw_history st) (fw_merged st)
                    /\ (fw_merged st = -1
                        \/ divergence_detected uninit fin
                             (effective_future snapshot future_snapshot)
                             (range (snapshot + 1)
                                (effective_future snapshot future_snapshot + 1))
                             (mkForward history (Z.of_nat start_ind) (-1))
                             (fw_merged st)))).
Proof.
  intros H. split; [reflexivity|].
  unfold galaxy_history in H. cbn zeta in H.
  apply bind_ok_inv in H as ([history start_ind] & Hback & H).
  exists start_ind, history. split; [exact Hback|].
  destruct (Z.eqb_spec (effective_future snapshot future_snapshot) snapshot)
    as [Heq|Hne]; cbn [negb bind] in H.
  - left. split; [exact Heq|].
    destruct pandas; cbn [bind] in H; [discriminate|].
    congruence.
  - right. split; [exact Hne|].
    apply bind_ok_inv in H as ([h m] & Hfw & H).
    apply bind_ok_inv in Hfw as (st & Hst & Hfw).
    injection Hfw as <- <-.
    exists st. split; [exact Hst|].
    destruct pandas; cbn [bind] in H; [discriminate|].
    split; [congruence|].
    unfold forward_phase in Hst.
    apply (forward_loop_detects uninit _ _ _ _ _ Hst). reflexivity.
Qed.

(** C10. With [0 <= future_snapshot < snapshot] the history buffer has
    [future_snapshot + 1] slots and no record can be stored at index
    [snapshot]: the call never returns, and once its first read of the
    galaxies has succeeded it fails with [IndexError], before any link
    array is read. *)
Theorem future_before_start_raises fin gal_id snapshot future_snapshot pandas :
  0 <= future_snapshot < snapshot ->
  (exists history,
     np_zeros_rec (future_snapshot + 1) = Ok history
     /\ length history = Z.to_nat (future_snapshot + 1)
     /\ forall g, np_setitem history snapshot g = Raise IndexError)
  /\ is_ok (galaxy_history uninit fin gal_id snapshot future_snapshot pandas)
     = false
  /\ forall gals,
       read_gals uninit fin snapshot None = Ok gals ->
       galaxy_history uninit fin gal_id snapshot future_snapshot pandas
       = Raise IndexError.
Proof.
  intros Hfut.
  assert (Hset : forall g,
            np_setitem (replicate (Z.to_nat (future_snapshot + 1)) zero_galaxy)
              snapshot g = Raise IndexError).
  { intros g. unfold np_setitem. rewrite length_replicate.
    destruct (Z.ltb_spec snapshot 0); [lia|].
    destruct (Z.ltb_spec snapshot 0); [lia|].
    destruct (Z.leb_spec (Z.of_nat (Z.to_nat (future_snapshot + 1))) snapshot);
      [reflexivity | lia]. }
  assert (Hraise : forall gals,
            read_gals uninit fin snapshot None = Ok gals ->
            galaxy_history uninit fin gal_id snapshot future_snapshot pandas
            = Raise IndexError).
  { intros gals Hgals. unfold galaxy_history, effective_future.
    destruct (Z.eqb_spec future_snapshot (-1)); [lia|]. cbn zeta.
    unfold backward_phase. rewrite Hgals. cbn [bind].
    destruct (where_id gals gal_id) as [start_ind|e] eqn:Hid.
    - cbn [bind]. rewrite np_zeros_rec_ok by lia. cbn [bind].
      destruct (where_id_ok _ _ _ Hid) as (g & Hg & _).
      rewrite (np_index_nat _ _ _ Hg). cbn [bind].
      rewrite Hset. reflexivity.
    - cbn [bind]. unfold where_id in Hid.
      destruct (list_find _ gals) as [[i x]|]; congruence. }
  split; [|split].
  - exists (replicate (Z.to_nat (future_snapshot + 1)) zero_galaxy).
    split; [apply np_zeros_rec_ok; lia|].
    split; [apply length_replicate | exact Hset].
  - destruct (read_gals uninit fin snapshot None) as [gals|e] eqn:Hgals.
    + rewrite (Hraise gals eq_refl). reflexivity.
    + unfold galaxy_history, backward_phase. rewrite Hgals. reflexivity.
  - exact Hraise.
Qed.

End Returns.

(** ** The walker on the small catalogue *)




(** The first-progenitor chain of galaxy 110 of [old_catalog] reaches
    snapshot 0, where the FirstProgenitor array cannot be read: the call
    ends with [KeyError]. *)
Lemma chain_to_snapshot_0_raises :
  stitch old_catalog 1 FirstProgenitor = Ok [0; 1]
  /\ read_gals junk old_catalog 0 (Some 0) = Ok [gal 100]
  /\ stitch old_catalog 0 FirstProgenitor = Raise KeyError
  /\ galaxy_history junk old_catalog 110 1 (-1) false = Raise KeyError.
Proof. repeat split. Qed.

Lemma no_progenitor_raises_witness :
  galaxy_history junk demo_catalog 111 1 3 false = Raise Warning.
Proof.
  apply (no_progenitor_raises junk demo_catalog 111 1 3 false
           [gal 110; gal 111; mkGalaxy 112 2] 1 [-1; -1; -1]).
  - reflexivity.
  - reflexivity.
  - unfold effective_future. simpl. lia.
  - reflexivity.
  - reflexivity.
Defined.

(** C5, the claim fails: the call for galaxy 110, whose stitched
    FirstProgenitor value at its starting snapshot is -1, returns no
    history. *)
Lemma no_progenitor_aborts_call :
  (let* fp_ind := read_firstprogenitor_indices demo_catalog 1 in
   np_index fp_ind 0) = Ok (-1)
  /\ galaxy_history junk demo_catalog 110 1 (-1) false = Raise Warning
  /\ is_ok (galaxy_history junk demo_catalog 110 1 (-1) false) = false.
Proof. repeat split. Qed.

Lemma history_alone_iff_no_future_witness :
  effective_future 2 (-1) = 2
  /\ exists start_ind history,
       backward_phase junk demo_catalog 121 2 (effective_future 2 4)
       = Ok (history, start_ind)
       /\ ((effective_future 2 4 = 2
            /\ HistoryMerged
                 [zero_galaxy; gal 111; gal 121; gal 130; gal 140] 3
               = HistoryOnly history)
           \/ (effective_future 2 4 <> 2
               /\ exists st,
                    forward_phase junk demo_catalog 2 (effective_future 2 4)
                      history start_ind = Ok st
                    /\ HistoryMerged
                         [zero_galaxy; gal 111; gal 121; gal 130; gal 140] 3
                       = HistoryMerged (fw_history st) (fw_merged st)
                    /\ (fw_merged st = -1
                        \/ divergence_detected junk demo_catalog
                             (effective_future 2 4)
                             (range (2 + 1) (effective_future 2 4 + 1))
                             (mkForward history (Z.of_nat start_ind) (-1))
                             (fw_merged st)))).
Proof.
  apply (history_alone_iff_no_future junk demo_catalog 121 2 4 false
           (HistoryMerged
              [zero_galaxy; gal 111; gal 121; gal 130; gal 140] 3)).
  reflexivity.
Defined.

Lemma future_before_start_raises_witness :
  (exists history,
     np_zeros_rec (1 + 1) = Ok history
     /\ length history = Z.to_nat (1 + 1)
     /\ forall g, np_setitem history 2 g = Raise IndexError)
  /\ is_ok (galaxy_history junk demo_catalog 121 2 1 false) = false
  /\ forall gals,
       read_gals junk demo_catalog 2 None = Ok gals ->
       galaxy_history junk demo_catalog 121 2 1 false = Raise IndexError.
Proof.
  apply (future_before_start_raises junk demo_catalog 121 2 1 false).
  lia.
Defined.

(** ** [read_gals]: what is fetched *)

Lemma apply_offsets_splice (G gs : list galaxy) (counter off : nat) :
  (counter + length gs <= length G)%nat ->
  apply_offsets (splice G counter gs) counter (length gs) off
  = splice G counter (map (shifted off) gs).
Proof.
  intros H. unfold apply_offsets, splice.
  assert (Hc : length (take counter G) = counter)
    by (rewrite length_take; lia).
  rewrite length_map.
  rewrite take_app_length' by (now rewrite Hc).
  rewrite drop_app_length' by (now rewrite Hc).
  rewrite take_app_length' by reflexivity.
  f_equal. f_equal.
  rewrite (app_assoc (take counter G) gs).
  rewrite drop_app_length' by (rewrite length_app, Hc; reflexivity).
  reflexivity.
Qed.

Lemma apply_offsets_length (G : list galaxy) (counter n off : nat) :
  length (apply_offsets G counter n off) = length G.
Proof.
  unfold apply_offsets.
  rewrite !length_app, length_map, !length_take, !length_drop. lia.
Qed.

Lemma read_direct_length {A : Type} (ds buf out : list A) (counter : nat) :
  read_direct ds buf counter = Ok out -> length out = length buf.
Proof.
  intros H. apply read_direct_inv in H as [(Hfit & ->)|(_ & _ & ->)].
  - apply splice_length. exact Hfit.
  - reflexivity.
Qed.

Lemma global_records_length cs : forall start,
  length (global_records cs start) = sum_list_with core_size cs.
Proof.
  induction cs as [|c cs IH]; intros start; simpl; [reflexivity|].
  rewrite length_app, length_map, IH. reflexivity.
Qed.

Section ReadGals.

Variable uninit : galaxy.

(** The index lies in one of the cores: its record is fetched. *)
Lemma read_one_loop_hit snap ind cs : forall k G total_read r,
  (forall i, (i < length cs)%nat -> Cores snap !! (k + i)%nat = cs !! i) ->
  length G = 1%nat ->
  Z.of_nat total_read <= ind ->
  global_records cs total_read !! Z.to_nat (ind - Z.of_nat total_read) = Some r ->
  read_one_loop snap ind (seq k (length cs)) G total_read = Ok [r].
Proof.
  induction cs as [|c cs IH]; intros k G total_read r Hcs HG Hlo Hr.
  - simpl in Hr. rewrite lookup_nil in Hr. discriminate.
  - simpl length. simpl seq. simpl read_one_loop.
    assert (Hc : core_lookup snap k = Ok c).
    { apply core_lookup_ok. specialize (Hcs 0%nat).
      rewrite Nat.add_0_r in Hcs. apply Hcs. simpl. lia. }
    rewrite Hc. simpl bind.
    simpl global_records in Hr.
    destruct (Z.leb_spec (Z.of_nat total_read) ind) as [_|?]; [|lia].
    destruct (Z.ltb_spec ind (Z.of_nat (total_read + length (Galaxies c))))
      as [Hhi|Hhi]; simpl andb.
    + rewrite lookup_app_l in Hr by (rewrite length_map; lia).
      change (map (shifted total_read) (Galaxies c))
        with (shifted total_read <$> Galaxies c) in Hr.
      rewrite list_lookup_fmap in Hr.
      destruct (Galaxies c !! Z.to_nat (ind - Z.of_nat total_read))
        as [g|] eqn:Hg; [|discriminate].
      injection Hr as <-.
      rewrite (np_index_nat _ _ _ Hg). simpl bind.
      destruct G as [|x [|y G]]; simpl in HG; try lia.
      reflexivity.
    + rewrite lookup_app_r in Hr by (rewrite length_map; lia).
      rewrite length_map in Hr.
      apply (IH (S k)).
      * intros i Hi. specialize (Hcs (S i)). simpl in Hcs.
        rewrite <- Hcs by lia. f_equal. lia.
      * exact HG.
      * lia.
      * rewrite <- Hr. f_equal. lia.
Qed.

(** The index lies in none of the cores: the buffer is returned as it
    was allocated. *)
Lemma read_one_loop_miss snap ind cs : forall k G total_read,
  (forall i, (i < length cs)%nat -> Cores snap !! (k + i)%nat = cs !! i) ->
  ind < Z.of_nat total_read
  \/ Z.of_nat (total_read + sum_list_with core_size cs) <= ind ->
  read_one_loop snap ind (seq k (length cs)) G total_read = Ok G.
Proof.
  induction cs as [|c cs IH]; intros k G total_read Hcs Hout.
  - reflexivity.
  - simpl length. simpl seq. simpl read_one_loop.
    assert (Hc : core_lookup snap k = Ok c).
    { apply core_lookup_ok. specialize (Hcs 0%nat).
      rewrite Nat.add_0_r in Hcs. apply Hcs. simpl. lia. }
    rewrite Hc. simpl bind.
    simpl sum_list_with in Hout. unfold core_size in Hout at 1.
    assert (Hin : (Z.of_nat total_read <=? ind)
                  && (ind <? Z.of_nat (total_read + length (Galaxies c)))
                  = false).
    { apply andb_false_iff.
      destruct Hout as [Hout|Hout]; [left; apply Z.leb_gt; lia|].
      right. apply Z.ltb_ge. lia. }
    rewrite Hin.
    apply (IH (S k)).
    + intros i Hi. specialize (Hcs (S i)). simpl in Hcs.
      rewrite <- Hcs by lia. f_equal. lia.
    + destruct Hout as [Hout|Hout]; [left; lia | right; lia].
Qed.

(** The first steps of [read_gals] on a snapshot that exists and has
    galaxies. *)
Lemma read_gals_open fin snapshot indices g :
  snap_lookup fin snapshot = Ok g ->
  NGalaxies g <> 0%nat ->
  (1 <= length (Cores g))%nat ->
  read_gals uninit fin snapshot indices
  = match indices with
    | None =>
        read_all_loop g (NGalaxies g) (seq 0 (NCores fin))
          (replicate (NGalaxies g) uninit) 0
    | Some ind => read_one_loop g ind (seq 0 (NCores fin)) [uninit] 0
    end.
Proof.
  intros Hg Hne Hc. unfold read_gals.
  pose proof (snap_lookup_nonneg _ _ _ Hg) as Hs.
  destruct (Z.ltb_spec snapshot 0); [lia|]. simpl bind.
  rewrite Hg. simpl bind.
  destruct (Nat.eqb_spec (NGalaxies g) 0); [contradiction|].
  destruct (lookup_lt_is_Some_2 (Cores g) 0 ltac:(lia)) as (c0 & Hc0).
  rewrite (proj2 (core_lookup_ok g 0 c0) Hc0). reflexivity.
Qed.

End ReadGals.

Section ReadGalsProperties.

Variable uninit : galaxy.

(** X1. [read_gals] with the one-element index list [[ind]] fetches the
    record at global index [ind]: the [ind]-th record of the cores' galaxy
    tables laid end to end, its [CentralGal] moved by the start of its
    core. *)
Theorem read_gals_fetches_global_index fin snapshot ind g r :
  snap_lookup fin snapshot = Ok g ->
  NGalaxies g <> 0%nat ->
  (1 <= NCores fin <= length (Cores g))%nat ->
  0 <= ind ->
  global_records (take (NCores fin) (Cores g)) 0 !! Z.to_nat ind = Some r ->
  read_gals uninit fin snapshot (Some ind) = Ok [r].
Proof.
  intros Hg Hne Hn Hind Hr.
  rewrite (read_gals_open uninit fin snapshot (Some ind) g Hg Hne) by lia.
  assert (Hlen : length (take (NCores fin) (Cores g)) = NCores fin)
    by (rewrite length_take; lia).
  rewrite <- Hlen at 1.
  apply read_one_loop_hit.
  - intros i Hi. rewrite Hlen in Hi. simpl.
    rewrite lookup_take_lt by exact Hi. reflexivity.
  - reflexivity.
  - simpl. exact Hind.
  - simpl. rewrite Z.sub_0_r. exact Hr.
Qed.

(** X2. [read_gals] raises nothing for an index that no core holds (a
    negative one, or one past the last record): it returns the one-slot
    buffer as [np.empty] allocated it. The index is an int32 value, which
    [np.array(indices, 'i')] holds as it is. *)
Theorem read_gals_unknown_index fin snapshot ind g :
  snap_lookup fin snapshot = Ok g ->
  NGalaxies g <> 0%nat ->
  (1 <= length (Cores g))%nat ->
  (NCores fin <= length (Cores g))%nat ->
  - 2 ^ 31 <= ind < 2 ^ 31 ->
  ind < 0
  \/ Z.of_nat (sum_list_with core_size (take (NCores fin) (Cores g))) <= ind ->
  read_gals uninit fin snapshot (Some ind) = Ok [uninit].
Proof.
  intros Hg Hne H1 Hn _ Hout.
  rewrite (read_gals_open uninit fin snapshot (Some ind) g Hg Hne H1).
  assert (Hlen : length (take (NCores fin) (Cores g)) = NCores fin)
    by (rewrite length_take; lia).
  rewrite <- Hlen at 1.
  apply read_one_loop_miss.
  - intros i Hi. rewrite Hlen in Hi. simpl.
    rewrite lookup_take_lt by exact Hi. reflexivity.
  - destruct Hout as [Hout|Hout]; [left; lia | right; simpl; lia].
Qed.

Lemma read_all_loop_ok snap ngals cs : forall k G counter,
  (forall i, (i < length cs)%nat -> Cores snap !! (k + i)%nat = cs !! i) ->
  Forall (fun c => (0 < length (Galaxies c))%nat) cs ->
  (counter + sum_list_with core_size cs = ngals)%nat ->
  length G = ngals ->
  read_all_loop snap ngals (seq k (length cs)) G counter
  = Ok (splice G counter (global_records cs counter)).
Proof.
  induction cs as [|c cs IH]; intros k G counter Hcs Hpos Hsum HG.
  - simpl. rewrite splice_nil. reflexivity.
  - simpl length. simpl seq. simpl read_all_loop.
    assert (Hc : core_lookup snap k = Ok c).
    { apply core_lookup_ok. specialize (Hcs 0%nat).
      rewrite Nat.add_0_r in Hcs. apply Hcs. simpl. lia. }
    rewrite Hc. simpl bind.
    apply Forall_cons in Hpos as (Hc0 & Hpos').
    simpl sum_list_with in Hsum. unfold core_size in Hsum at 1.
    destruct (Nat.ltb_spec 0 (length (Galaxies c))) as [_|?]; [|lia].
    rewrite read_direct_ok by lia. simpl bind.
    rewrite apply_offsets_splice by lia.
    simpl global_records.
    destruct (Nat.leb_spec ngals (counter + length (Galaxies c)))
      as [Hdone|Hmore].
    + assert (cs = []).
      { destruct cs as [|c1 cs1]; [reflexivity|].
        apply Forall_cons in Hpos' as (Hc1 & _).
        simpl sum_list_with in Hsum. unfold core_size in Hsum at 1. lia. }
      subst cs. simpl. rewrite app_nil_r. reflexivity.
    + rewrite (IH (S k)).
      * rewrite <- (length_map (shifted counter) (Galaxies c)) at 1.
        rewrite splice_splice by (rewrite length_map; lia).
        rewrite ?length_map. reflexivity.
      * intros i Hi. specialize (Hcs (S i)). simpl in Hcs.
        rewrite <- Hcs by lia. f_equal. lia.
      * exact Hpos'.
      * lia.
      * rewrite splice_length by (rewrite length_map; lia). exact HG.
Qed.

Lemma read_gals_reads_all_aux fin snapshot g :
  snap_lookup fin snapshot = Ok g ->
  (1 <= NCores fin <= length (Cores g))%nat ->
  Forall (fun c => (0 < length (Galaxies c))%nat) (take (NCores fin) (Cores g)) ->
  sum_list_with core_size (take (NCores fin) (Cores g)) = NGalaxies g ->
  read_gals uninit fin snapshot None
  = Ok (global_records (take (NCores fin) (Cores g)) 0).
Proof.
  intros Hg Hn Hpos Hsum.
  assert (Hlen : length (take (NCores fin) (Cores g)) = NCores fin)
    by (rewrite length_take; lia).
  assert (Hne : NGalaxies g <> 0%nat).
  { rewrite <- Hsum.
    destruct (take (NCores fin) (Cores g)) as [|c cs]; simpl in Hlen; [lia|].
    apply Forall_cons in Hpos as (Hc & _).
    simpl. unfold core_size at 1. lia. }
  rewrite (read_gals_open uninit fin snapshot None g Hg Hne) by lia.
  rewrite <- Hlen at 1.
  rewrite (read_all_loop_ok g (NGalaxies g) (take (NCores fin) (Cores g)) 0).
  - f_equal. unfold splice. simpl.
    rewrite global_records_length, Hsum.
    rewrite drop_ge by (rewrite length_replicate; lia).
    apply app_nil_r.
  - intros i Hi. rewrite Hlen in Hi. simpl.
    rewrite lookup_take_lt by exact Hi. reflexivity.
  - exact Hpos.
  - simpl. exact Hsum.
  - apply length_replicate.
Qed.

(** X3. On a snapshot whose cores are all non-empty and hold together as
    many records as [NGalaxies] declares, [read_gals] without indices
    returns the records of the cores in global order, [CentralGal] moved
    by the start of each core. *)
Theorem read_gals_reads_all fin snapshot g :
  snap_lookup fin snapshot = Ok g ->
  (1 <= NCores fin <= length (Cores g))%nat ->
  Forall (fun c => (0 < length (Galaxies c))%nat) (take (NCores fin) (Cores g)) ->
  sum_list_with core_size (take (NCores fin) (Cores g)) = NGalaxies g ->
  read_gals uninit fin snapshot None
  = Ok (global_records (take (NCores fin) (Cores g)) 0).
Proof. apply read_gals_reads_all_aux. Qed.

(** X4. On such a snapshot, fetching one index agrees with indexing the
    full read: [read_gals(indices=[ind])] returns the record that stands
    at position [ind] of [read_gals()]. *)
Theorem read_gals_index_agrees fin snapshot g gals ind r :
  snap_lookup fin snapshot = Ok g ->
  (1 <= NCores fin <= length (Cores g))%nat ->
  Forall (fun c => (0 < length (Galaxies c))%nat) (take (NCores fin) (Cores g)) ->
  sum_list_with core_size (take (NCores fin) (Cores g)) = NGalaxies g ->
  read_gals uninit fin snapshot None = Ok gals ->
  0 <= ind ->
  gals !! Z.to_nat ind = Some r ->
  read_gals uninit fin snapshot (Some ind) = Ok [r].
Proof.
  intros Hg Hn Hpos Hsum Hall Hind Hr.
  rewrite (read_gals_reads_all_aux fin snapshot g Hg Hn Hpos Hsum) in Hall.
  injection Hall as <-.
  assert (Hne : NGalaxies g <> 0%nat).
  { apply lookup_lt_Some in Hr.
    rewrite global_records_length, Hsum in Hr. lia. }
  rewrite (read_gals_open uninit fin snapshot (Some ind) g Hg Hne) by lia.
  assert (Hlen : length (take (NCores fin) (Cores g)) = NCores fin)
    by (rewrite length_take; lia).
  rewrite <- Hlen at 1.
  apply read_one_loop_hit.
  - intros i Hi. rewrite Hlen in Hi. simpl.
    rewrite lookup_take_lt by exact Hi. reflexivity.
  - reflexivity.
  - simpl. exact Hind.
  - simpl. rewrite Z.sub_0_r. exact Hr.
Qed.

Lemma read_all_loop_length snap ngals i_cores : forall G counter out,
  read_all_loop snap ngals i_cores G counter = Ok out ->
  length out = length G.
Proof.
  induction i_cores as [|i rest IH]; intros G counter out H.
  - injection H as <-. reflexivity.
  - simpl read_all_loop in H.
    apply bind_ok_inv in H as (c & _ & H).
    destruct (0 <? length (Galaxies c))%nat; [|discriminate].
    apply bind_ok_inv in H as (G1 & Hrd & H).
    apply read_direct_length in Hrd.
    destruct (ngals <=? counter + length (Galaxies c))%nat.
    + injection H as <-. rewrite apply_offsets_length. exact Hrd.
    + apply IH in H. rewrite apply_offsets_length in H. congruence.
Qed.

Lemma read_one_loop_length snap ind i_cores : forall G total_read out,
  length G = 1%nat ->
  read_one_loop snap ind i_cores G total_read = Ok out ->
  length out = 1%nat.
Proof.
  induction i_cores as [|i rest IH]; intros G total_read out HG H.
  - injection H as <-. exact HG.
  - simpl read_one_loop in H.
    apply bind_ok_inv in H as (c & _ & H).
    destruct (_ && _).
    + apply bind_ok_inv in H as (g & _ & H). injection H as <-.
      rewrite apply_offsets_length.
      destruct G as [|x [|y G]]; simpl in HG; try lia. reflexivity.
    + apply (IH _ _ _ HG H).
Qed.

(** X5. Whatever [read_gals] returns is not empty: the snapshot it read
    declares at least one galaxy, and the array holds [NGalaxies] records
    when no indices were given and one record for the index list
    [[ind]]. *)
Theorem read_gals_result_length fin snapshot indices gals :
  0 <= snapshot ->
  read_gals uninit fin snapshot indices = Ok gals ->
  exists g,
    snap_lookup fin snapshot = Ok g
    /\ NGalaxies g <> 0%nat
    /\ length gals = match indices with
                     | None => NGalaxies g
                     | Some _ => 1%nat
                     end.
Proof.
  intros Hs H. unfold read_gals in H.
  destruct (Z.ltb_spec snapshot 0); [lia|]. simpl bind in H.
  apply bind_ok_inv in H as (g & Hg & H).
  exists g. split; [exact Hg|].
  destruct (Nat.eqb_spec (NGalaxies g) 0) as [|Hne]; [discriminate|].
  split; [exact Hne|].
  apply bind_ok_inv in H as (c0 & _ & H).
  destruct indices as [ind|].
  - apply (read_one_loop_length g ind (seq 0 (NCores fin)) [uninit] 0%nat gals);
      [reflexivity | exact H].
  - apply read_all_loop_length in H. rewrite H. apply length_replicate.
Qed.

Lemma np_index_present_snaps (n : nat) (s : Z) :
  s < 0 ->
  np_index (map Z.of_nat (seq 0 n)) s
  = if s + Z.of_nat n <? 0 then Raise IndexError else Ok (s + Z.of_nat n).
Proof.
  intros Hs. unfold np_index. rewrite length_map, length_seq.
  destruct (Z.ltb_spec s 0); [|lia].
  destruct (Z.ltb_spec (s + Z.of_nat n) 0); [reflexivity|].
  destruct (Z.leb_spec (Z.of_nat n) (s + Z.of_nat n)); [lia|]. simpl.
  change (map Z.of_nat (seq 0 n)) with (Z.of_nat <$> seq 0 n).
  rewrite list_lookup_fmap, lookup_seq_lt by lia. simpl.
  f_equal. lia.
Qed.

(** X6. A negative snapshot counts from the end of the snapshots
    present: [read_gals(snapshot=-k)] behaves as [read_gals] on snapshot
    [N - k] of a file with [N] snapshots, and fails with [IndexError] when
    [k] exceeds [N]. *)
Theorem read_gals_negative_snapshot fin snapshot indices :
  snapshot < 0 ->
  read_gals uninit fin snapshot indices
  = if snapshot + Z.of_nat (length (Snaps fin)) <? 0 then Raise IndexError
    else read_gals uninit fin (snapshot + Z.of_nat (length (Snaps fin))) indices.
Proof.
  intros Hs. unfold read_gals at 1.
  destruct (Z.ltb_spec snapshot 0); [|lia].
  rewrite np_index_present_snaps by exact Hs.
  destruct (Z.ltb_spec (snapshot + Z.of_nat (length (Snaps fin))) 0) as [|Hge];
    [reflexivity|].
  unfold read_gals.
  destruct (Z.ltb_spec (snapshot + Z.of_nat (length (Snaps fin))) 0); [lia|].
  reflexivity.
Qed.

End ReadGalsProperties.

Lemma read_gals_fetches_global_index_witness :
  read_gals junk demo_catalog 2 (Some 2) = Ok [mkGalaxy 122 2].
Proof.
  apply (read_gals_fetches_global_index junk demo_catalog 2 2 _ _ demo_snap2).
  - simpl. lia.
  - simpl. lia.
  - lia.
  - reflexivity.
Defined.

Lemma read_gals_unknown_index_witness :
  read_gals junk demo_catalog 2 (Some 3) = Ok [junk].
Proof.
  apply (read_gals_unknown_index junk demo_catalog 2 3 _ demo_snap2).
  - simpl. lia.
  - simpl. lia.
  - simpl. lia.
  - lia.
  - right. simpl. lia.
Defined.

Lemma read_gals_reads_all_witness :
  read_gals junk demo_catalog 2 None
  = Ok [gal 120; gal 121; mkGalaxy 122 2].
Proof.
  apply (read_gals_reads_all junk demo_catalog 2 _ demo_snap2).
  - simpl. lia.
  - repeat constructor.
  - reflexivity.
Defined.

Lemma read_gals_index_agrees_witness :
  read_gals junk demo_catalog 2 (Some 1) = Ok [gal 121].
Proof.
  apply (read_gals_index_agrees junk demo_catalog 2 _
           [gal 120; gal 121; mkGalaxy 122 2] 1 (gal 121) demo_snap2).
  - simpl. lia.
  - repeat constructor.
  - reflexivity.
  - reflexivity.
  - lia.
  - reflexivity.
Defined.

Lemma read_gals_result_length_witness :
  exists g,
    snap_lookup demo_catalog 2 = Ok g
    /\ NGalaxies g <> 0%nat
    /\ length [gal 120; gal 121; mkGalaxy 122 2] = NGalaxies g.
Proof.
  apply (read_gals_result_length junk demo_catalog 2 None
           [gal 120; gal 121; mkGalaxy 122 2]).
  - lia.
  - reflexivity.
Defined.

Lemma read_gals_negative_snapshot_witness :
  read_gals junk demo_catalog (-1) (Some 0)
  = read_gals junk demo_catalog 4 (Some 0).
Proof.
  apply (read_gals_negative_snapshot junk demo_catalog (-1) (Some 0)).
  lia.
Defined.

(** ** The readers: length, missing groups, offsets *)

(** The shape of a returned array, with the offsets the reader used. *)
Lemma stitch_shape_offsets fin snapshot kind out :
  stitch fin snapshot kind = Ok out ->
  exists g offs,
    snap_lookup fin snapshot = Ok g
    /\ reader_offsets fin snapshot kind offs
    /\ out = take (NGalaxies g)
               (stitched_body (links_of kind) offs
                  (take (NCores fin) (Cores g)) 0 0
                ++ replicate
                     (NGalaxies g
                      - links_total (links_of kind)
                          (take (NCores fin) (Cores g))) 0).
Proof.
  intros H.
  assert (Hgen : forall g offset_of offs,
            (forall i c, (i < NCores fin)%nat -> offset_of i c = Ok (offs i c)) ->
            stitch_loop (links_of kind) offset_of g (seq 0 (NCores fin))
              (np_zeros (NGalaxies g)) 0 = Ok out ->
            out = take (NGalaxies g)
                    (stitched_body (links_of kind) offs
                       (take (NCores fin) (Cores g)) 0 0
                     ++ replicate
                          (NGalaxies g
                           - links_total (links_of kind)
                               (take (NCores fin) (Cores g))) 0)).
  { intros g offset_of offs Hoff Hrun.
    destruct (stitch_loop_run _ _ _ _ _ _ _ Hoff Hrun) as (_ & ->).
    rewrite splice_zeros, stitched_body_length.
    unfold np_zeros. rewrite length_replicate. reflexivity. }
  destruct kind; simpl in H.
  - unfold read_firstprogenitor_indices in H.
    apply bind_ok_inv in H as (g & Hg & H).
    apply bind_ok_inv in H as (pg & Hpg & H).
    apply bind_ok_inv in H as (pcc & Hpcc & H).
    exists g, (counter_offs pcc). split; [exact Hg|]. split.
    + exists pg, pcc. repeat split; assumption.
    + apply (Hgen g (counter_offset pcc)); [|exact H].
      apply core_offsets_length in Hpcc as (Hlen & _).
      intros i c Hi. apply counter_offset_ok. lia.
  - unfold read_nextprogenitor_indices in H.
    apply bind_ok_inv in H as (g & Hg & H).
    exists g, own_offs. split; [exact Hg|]. split; [reflexivity|].
    apply (Hgen g own_offset); [reflexivity | exact H].
  - unfold read_descendant_indices in H.
    apply bind_ok_inv in H as (g & Hg & H).
    apply bind_ok_inv in H as (ng & Hng & H).
    apply bind_ok_inv in H as (pcc & Hpcc & H).
    exists g, (counter_offs pcc). split; [exact Hg|]. split.
    + exists ng, pcc. repeat split; assumption.
    + apply (Hgen g (counter_offset pcc)); [|exact H].
      apply core_offsets_length in Hpcc as (Hlen & _).
      intros i c Hi. apply counter_offset_ok. lia.
Qed.

(** The slot of element [j] of core [i], with the offset the reader
    used. *)
Lemma stitch_lookup_offsets fin snapshot kind out g i c j v :
  stitch fin snapshot kind = Ok out ->
  snap_lookup fin snapshot = Ok g ->
  (i < NCores fin)%nat ->
  Cores g !! i = Some c ->
  links_of kind c !! j = Some v ->
  (slice_start (links_of kind) (Cores g) i + j < length out)%nat ->
  exists offs,
    reader_offsets fin snapshot kind offs
    /\ out !! (slice_start (links_of kind) (Cores g) i + j)%nat
       = Some (add_offset (offs i (slice_start (links_of kind) (Cores g) i)) v).
Proof.
  intros Hrun Hg Hi Hc Hv Hin.
  rewrite (stitch_length _ _ _ _ _ Hrun Hg) in Hin.
  destruct (stitch_shape_offsets _ _ _ _ Hrun) as (g' & offs & Hg' & Hoffs & ->).
  assert (g' = g) by congruence. subst g'.
  exists offs. split; [exact Hoffs|].
  assert (Hc' : take (NCores fin) (Cores g) !! i = Some c)
    by (rewrite lookup_take_lt by exact Hi; exact Hc).
  pose proof (stitched_body_lookup (links_of kind) offs _ 0%nat 0%nat
                i c j v Hc' Hv) as Hl.
  rewrite slice_start_take in Hl by lia.
  rewrite lookup_take_lt by exact Hin.
  rewrite lookup_app_l; [exact Hl|].
  apply lookup_lt_is_Some. rewrite Hl. eexists; reflexivity.
Qed.

Lemma fill_core_counter_inv dest m : forall k pcc out,
  fill_core_counter dest (seq k m) pcc = Ok out ->
  (m = 0 \/ k + m <= length (Cores dest))%nat.
Proof.
  induction m as [|m IH]; intros k pcc out H; [left; reflexivity|].
  right. simpl seq in H. simpl fill_core_counter in H.
  apply bind_ok_inv in H as (c & Hc & H).
  apply core_lookup_ok in Hc. apply lookup_lt_Some in Hc.
  apply IH in H as [->|H]; lia.
Qed.

Lemma cumsum_from_nth l : forall acc i,
  (i < length l)%nat ->
  nth i (cumsum_from acc l) 0 = acc + foldr Z.add 0 (take (S i) l).
Proof.
  induction l as [|x l IH]; intros acc i Hi; simpl in Hi; [lia|].
  destruct i as [|i]; simpl cumsum_from; simpl nth.
  - simpl. lia.
  - rewrite IH by lia. simpl. lia.
Qed.

(** The offsets [core_offsets] returns. *)
Lemma core_offsets_nth n dest pcc i :
  core_offsets n dest = Ok pcc ->
  (i < n)%nat ->
  nth i pcc 0 = wrapped_offset dest i.
Proof.
  intros H Hi. unfold core_offsets in H.
  destruct n as [|m]; [lia|].
  unfold np_zeros in H. simpl replicate in H.
  change (np_setitem (0 :: replicate m 0) 0 0) with (Ok (0 :: replicate m 0))
    in H.
  simpl bind in H. rewrite Nat.sub_0_r in H.
  apply bind_ok_inv in H as (p & Hfill & H). injection H as <-.
  assert (Hm : (m <= length (Cores dest))%nat).
  { apply fill_core_counter_inv in Hfill. lia. }
  pose proof (fill_core_counter_ok dest (take m (Cores dest)) 0 [0] eq_refl)
    as Hok.
  rewrite length_take, Nat.min_l in Hok by lia.
  simpl app in Hok. rewrite Hok in Hfill
    by (intros j Hj; rewrite lookup_take_lt by lia; reflexivity).
  injection Hfill as <-.
  unfold cumsum, wrapped_offset.
  rewrite cumsum_from_nth by (simpl; rewrite length_map, length_take; lia).
  destruct i as [|i]; [reflexivity|].
  simpl take. simpl foldr.
  change (map ?f ?l) with (f <$> l).
  rewrite <- fmap_take, take_take, Nat.min_l by lia.
  reflexivity.
Qed.

(** X7. Whatever a link-array reader returns has exactly [NGalaxies]
    elements, the declared total of the snapshot, whatever the cores
    hold. *)
Theorem stitch_returns_declared_length fin snapshot kind out g :
  stitch fin snapshot kind = Ok out ->
  snap_lookup fin snapshot = Ok g ->
  length out = NGalaxies g.
Proof. apply stitch_length. Qed.

Lemma stitch_returns_declared_length_witness :
  length [0; 1; 0] = 3%nat.
Proof.
  apply (stitch_returns_declared_length short_catalog 1 FirstProgenitor
           [0; 1; 0]
           (mkSnap 3 [ mkCore [gal 110] [0] [-1] [-1]
                     ; mkCore [gal 111] [0] [-1] [-1] ])).
  - reflexivity.
  - reflexivity.
Defined.

(** X8. In a file that declares no cores ([NCores = 0]) the FirstProgenitor
    and Descendant readers fail with [IndexError] as soon as the groups of
    the snapshot and of its neighbour are open, because
    [prev_core_counter] has no slot 0; the NextProgenitor reader returns
    the zeros of the allocation. *)
Theorem readers_without_cores fin snapshot g :
  NCores fin = 0%nat ->
  snap_lookup fin snapshot = Ok g ->
  stitch fin snapshot NextProgenitor = Ok (replicate (NGalaxies g) 0)
  /\ (forall d, snap_lookup fin (snapshot - 1) = Ok d ->
                stitch fin snapshot FirstProgenitor = Raise IndexError)
  /\ (forall d, snap_lookup fin (snapshot + 1) = Ok d ->
                stitch fin snapshot Descendant = Raise IndexError).
Proof.
  intros Hn Hg. split; [|split].
  - simpl. unfold read_nextprogenitor_indices.
    rewrite Hg, Hn. reflexivity.
  - intros d Hd. simpl. unfold read_firstprogenitor_indices.
    rewrite Hg. simpl bind. rewrite Hd, Hn. reflexivity.
  - intros d Hd. simpl. unfold read_descendant_indices.
    rewrite Hg. simpl bind. rewrite Hd, Hn. reflexivity.
Qed.

Lemma readers_without_cores_witness :
  stitch (mkFile 0 (Snaps demo_catalog)) 1 NextProgenitor
  = Ok (replicate 3 0)
  /\ (forall d, snap_lookup (mkFile 0 (Snaps demo_catalog)) (1 - 1) = Ok d ->
                stitch (mkFile 0 (Snaps demo_catalog)) 1 FirstProgenitor
                = Raise IndexError)
  /\ (forall d, snap_lookup (mkFile 0 (Snaps demo_catalog)) (1 + 1) = Ok d ->
                stitch (mkFile 0 (Snaps demo_catalog)) 1 Descendant
                = Raise IndexError).
Proof.
  apply (readers_without_cores (mkFile 0 (Snaps demo_catalog)) 1
           (mkSnap 3 [ mkCore [gal 110; gal 111] [-1; -1] [-1; -1] [0; 1]
                     ; mkCore [gal 112] [-1] [-1] [0] ])).
  - reflexivity.
  - reflexivity.
Defined.

(** X9. When the snapshot has fewer core groups than [NCores] declares,
    no link-array reader returns. *)
Theorem snapshot_missing_core fin snapshot kind g :
  snap_lookup fin snapshot = Ok g ->
  (length (Cores g) < NCores fin)%nat ->
  is_ok (stitch fin snapshot kind) = false.
Proof.
  intros Hg Hless.
  destruct (stitch fin snapshot kind) as [out|e] eqn:Hrun; [|reflexivity].
  destruct (stitch_shape _ _ _ _ Hrun) as (g' & offs & Hg' & Hn & _).
  assert (g' = g) by congruence. subst g'. lia.
Qed.

Lemma snapshot_missing_core_witness :
  is_ok (stitch (mkFile 3 (Snaps demo_catalog)) 2 NextProgenitor) = false.
Proof.
  apply (snapshot_missing_core (mkFile 3 (Snaps demo_catalog)) 2 NextProgenitor
           (mkSnap 3 [ mkCore [gal 120; gal 121] [0; 1] [1; -1] [0; 0]
                     ; mkCore [gal 122] [0] [-1] [0] ])).
  - reflexivity.
  - simpl. lia.
Defined.

Lemma fill_core_counter_missing dest m : forall k pcc,
  (0 < m)%nat ->
  (length (Cores dest) < k + m)%nat ->
  fill_core_counter dest (seq k m) pcc = Raise KeyError.
Proof.
  induction m as [|m IH]; intros k pcc Hm Hless; [lia|].
  simpl seq. simpl fill_core_counter. unfold core_lookup.
  destruct (Cores dest !! k) as [c|] eqn:Hc; [|reflexivity].
  simpl bind. apply lookup_lt_Some in Hc.
  apply IH; lia.
Qed.

(** X10. The FirstProgenitor and Descendant readers need the galaxy
    tables of all but the last core of the neighbouring snapshot: when one
    of them is missing they fail with [KeyError] before any link value is
    read. *)
Theorem destination_missing_core fin snapshot kind g d :
  kind <> NextProgenitor ->
  snap_lookup fin snapshot = Ok g ->
  snap_lookup fin (dest_snapshot kind snapshot) = Ok d ->
  (length (Cores d) < NCores fin - 1)%nat ->
  stitch fin snapshot kind = Raise KeyError.
Proof.
  intros Hkind Hg Hd Hless.
  assert (Hoff : core_offsets (NCores fin) d = Raise KeyError).
  { unfold core_offsets, np_zeros.
    destruct (NCores fin) as [|m]; [simpl in Hless; lia|].
    simpl replicate.
    change (np_setitem (0 :: replicate m 0) 0 0) with (Ok (0 :: replicate m 0)).
    simpl bind. rewrite fill_core_counter_missing by (simpl in *; lia).
    reflexivity. }
  destruct kind; [|contradiction|]; simpl in *.
  - unfold read_firstprogenitor_indices.
    rewrite Hg. simpl bind. rewrite Hd. simpl bind. rewrite Hoff. reflexivity.
  - unfold read_descendant_indices.
    rewrite Hg. simpl bind. rewrite Hd. simpl bind. rewrite Hoff. reflexivity.
Qed.

Lemma destination_missing_core_witness :
  stitch (mkFile 4 (Snaps demo_catalog)) 2 FirstProgenitor = Raise KeyError.
Proof.
  apply (destination_missing_core (mkFile 4 (Snaps demo_catalog)) 2
           FirstProgenitor
           (mkSnap 3 [ mkCore [gal 120; gal 121] [0; 1] [1; -1] [0; 0]
                     ; mkCore [gal 122] [0] [-1] [0] ])
           (mkSnap 3 [ mkCore [gal 110; gal 111] [-1; -1] [-1; -1] [0; 1]
                     ; mkCore [gal 112] [-1] [-1] [0] ])).
  - discriminate.
  - reflexivity.
  - reflexivity.
  - simpl. lia.
Defined.

(** X11. Every element of a FirstProgenitor or Descendant array that a
    reader returns is the raw value of its core passed through the masked
    update with one offset per core: the sum of the sizes of the galaxy
    tables of the cores before it in the neighbouring snapshot (previous
    for FirstProgenitor, next for Descendant), each size as an ['i4']
    holds it. *)
Theorem neighbour_offset_applied fin snapshot kind out g d i c j v :
  kind <> NextProgenitor ->
  stitch fin snapshot kind = Ok out ->
  snap_lookup fin snapshot = Ok g ->
  snap_lookup fin (dest_snapshot kind snapshot) = Ok d ->
  (i < NCores fin)%nat ->
  Cores g !! i = Some c ->
  links_of kind c !! j = Some v ->
  (slice_start (links_of kind) (Cores g) i + j < length out)%nat ->
  out !! (slice_start (links_of kind) (Cores g) i + j)%nat
  = Some (add_offset (wrapped_offset d i) v).
Proof.
  intros Hkind Hrun Hg Hd Hi Hc Hv Hin.
  destruct (stitch_lookup_offsets _ _ _ _ _ _ _ _ _ Hrun Hg Hi Hc Hv Hin)
    as (offs & Hoffs & ->).
  do 2 f_equal.
  destruct kind; [|contradiction|]; simpl in Hoffs, Hd;
    destruct Hoffs as (d' & pcc & Hd' & Hpcc & ->);
    (assert (d' = d) by congruence); subst d';
    unfold counter_offs; apply (core_offsets_nth _ _ _ _ Hpcc Hi).
Qed.

Lemma neighbour_offset_applied_witness :
  [0; 1; 2] !! 2%nat = Some 2.
Proof.
  apply (neighbour_offset_applied demo_catalog 2 FirstProgenitor [0; 1; 2]
           _ _ 1%nat (mkCore [gal 122] [0] [-1] [0]) 0%nat 0
           ltac:(discriminate) eq_refl demo_snap2 demo_snap1).
  - simpl. lia.
  - reflexivity.
  - reflexivity.
  - simpl. lia.
Defined.

(** X12. Every element of a NextProgenitor array that the reader returns
    is the raw value of its core passed through the masked update with the
    start of the core's own slice as offset: the number of NextProgenitor
    values the cores before it hold, whatever the sizes of the galaxy
    tables. *)
Theorem own_offset_applied fin snapshot out g i c j v :
  stitch fin snapshot NextProgenitor = Ok out ->
  snap_lookup fin snapshot = Ok g ->
  (i < NCores fin)%nat ->
  Cores g !! i = Some c ->
  NextProgenitorIndices c !! j = Some v ->
  (slice_start NextProgenitorIndices (Cores g) i + j < length out)%nat ->
  out !! (slice_start NextProgenitorIndices (Cores g) i + j)%nat
  = Some (add_offset
            (Z.of_nat (slice_start NextProgenitorIndices (Cores g) i)) v).
Proof.
  intros Hrun Hg Hi Hc Hv Hin.
  destruct (stitch_lookup_offsets fin snapshot NextProgenitor
              _ _ _ _ _ _ Hrun Hg Hi Hc Hv Hin) as (offs & Hoffs & Hl).
  simpl in Hoffs. subst offs. exact Hl.
Qed.

Lemma own_offset_applied_witness :
  [1; -1; -1] !! 0%nat = Some 1.
Proof.
  apply (own_offset_applied demo_catalog 2 [1; -1; -1]
           _ 0%nat (mkCore [gal 120; gal 121] [0; 1] [1; -1] [0; 0]) 0%nat 1
           eq_refl demo_snap2).
  - simpl. lia.
  - reflexivity.
  - reflexivity.
  - simpl. lia.
Defined.

(** ** [galaxy_history]: edges of the walk *)

Lemma read_firstprogenitor_nonpositive fin snapshot :
  snapshot <= 0 ->
  read_firstprogenitor_indices fin snapshot = Raise KeyError.
Proof.
  intros Hs.
  destruct (read_firstprogenitor_indices fin snapshot) as [fp|e] eqn:H.
  - apply read_firstprogenitor_facts in H. lia.
  - unfold read_firstprogenitor_indices in H.
    destruct (snap_lookup fin snapshot) as [g|e1] eqn:Hg; simpl bind in H.
    + destruct (snap_lookup fin (snapshot - 1)) as [d|e2] eqn:Hd;
        simpl bind in H.
      * apply snap_lookup_nonneg in Hd. lia.
      * apply snap_lookup_raises in Hd. congruence.
    + apply snap_lookup_raises in Hg. congruence.
Qed.

Lemma store_record_length history snap G history' :
  store_record history snap G = Ok history' ->
  length history' = length history.
Proof.
  unfold store_record. destruct G as [|g [|g' G]]; try discriminate.
  apply np_setitem_length.
Qed.

Lemma store_record_below history snap G history' (j : nat) :
  store_record history snap G = Ok history' ->
  (Z.of_nat j < snap)%Z ->
  history' !! j = history !! j.
Proof.
  unfold store_record, np_setitem.
  destruct G as [|g [|g' G]]; try discriminate.
  intros H Hj.
  destruct (Z.ltb_spec snap 0); [lia|].
  destruct (_ || _); [discriminate|]. injection H as <-.
  apply list_lookup_insert_ne. lia.
Qed.

Lemma range_bounds lo hi m : m ∈ range lo hi -> lo <= m < hi.
Proof.
  unfold range. intros H. apply list_elem_of_In, in_map_iff in H.
  destruct H as (i & <- & Hi). apply in_seq in Hi. lia.
Qed.

Section WalkEdges.

Variable uninit : galaxy.

Lemma read_gals_one_singleton fin snapshot ind G :
  read_gals uninit fin snapshot (Some ind) = Ok G -> exists r, G = [r].
Proof.
  intros H.
  assert (Hlen : length G = 1%nat).
  { unfold read_gals in H.
    apply bind_ok_inv in H as (s & _ & H).
    apply bind_ok_inv in H as (g & _ & H).
    destruct (NGalaxies g =? 0)%nat; [discriminate|].
    apply bind_ok_inv in H as (c0 & _ & H).
    apply (read_one_loop_length g ind (seq 0 (NCores fin)) [uninit] 0%nat G);
      [reflexivity | exact H]. }
  destruct G as [|r [|r' G]]; simpl in Hlen; try lia.
  exists r. reflexivity.
Qed.

Lemma backward_loop_length fin snaps : forall history ind history',
  backward_loop uninit fin snaps history ind = Ok history' ->
  length history' = length history.
Proof.
  induction snaps as [|snap rest IH]; intros history ind history' H.
  - injection H as <-. reflexivity.
  - cbn [backward_loop] in H.
    apply bind_ok_inv in H as (G & _ & H).
    apply bind_ok_inv in H as (h1 & Hst & H).
    apply bind_ok_inv in H as (fp & _ & H).
    apply bind_ok_inv in H as (ind' & _ & H).
    apply store_record_length in Hst.
    destruct (ind' =? -1).
    + injection H as <-. exact Hst.
    + apply IH in H. congruence.
Qed.

(** What a returning backward phase tells. *)
Lemma backward_phase_facts fin gal_id snapshot future_snapshot history start_ind :
  backward_phase uninit fin gal_id snapshot future_snapshot
  = Ok (history, start_ind) ->
  1 <= snapshot <= future_snapshot
  /\ length history = Z.to_nat (future_snapshot + 1).
Proof.
  unfold backward_phase. intros H.
  apply bind_ok_inv in H as (gals & _ & H).
  apply bind_ok_inv in H as (si & _ & H).
  apply bind_ok_inv in H as (h0 & Hz & H).
  apply bind_ok_inv in H as (g & _ & H).
  apply bind_ok_inv in H as (h1 & Hset & H).
  apply bind_ok_inv in H as (fp & Hfp & H).
  apply bind_ok_inv in H as (ind & _ & H).
  destruct (ind =? -1); [discriminate|].
  apply bind_ok_inv in H as (h2 & Hloop & H).
  injection H as <- <-.
  apply read_firstprogenitor_facts in Hfp as (Hs & _).
  apply backward_loop_length in Hloop.
  pose proof (np_setitem_length _ _ _ _ Hset) as Hl1.
  unfold np_zeros_rec in Hz.
  destruct (Z.ltb_spec (future_snapshot + 1) 0); [discriminate|].
  injection Hz as <-. rewrite length_replicate in Hl1.
  unfold np_setitem in Hset. rewrite length_replicate in Hset.
  destruct (Z.ltb_spec snapshot 0); [lia|].
  destruct (Z.ltb_spec snapshot 0); [lia|].
  destruct (Z.leb_spec (Z.of_nat (Z.to_nat (future_snapshot + 1))) snapshot);
    [discriminate|].
  split; [lia | congruence].
Qed.

(** What a returning forward iteration leaves of the history. *)
Lemma forward_step_history fin future_snapshot snap st r :
  forward_step uninit fin future_snapshot snap st = Ok r ->
  let st' := match r with inl s => s | inr s => s end in
  length (fw_history st') = length (fw_history st)
  /\ forall j : nat, Z.of_nat j < snap ->
                     fw_history st' !! j = fw_history st !! j.
Proof.
  unfold forward_step. intros H.
  apply bind_ok_inv in H as (desc & _ & H).
  apply bind_ok_inv in H as (ind & _ & H).
  destruct (ind =? -1).
  - injection H as <-. split; [reflexivity | intros; reflexivity].
  - apply bind_ok_inv in H as (m & _ & H).
    apply bind_ok_inv in H as (G & _ & H).
    apply bind_ok_inv in H as (h & Hst & H).
    injection H as <-. cbn [fw_history]. split.
    + apply (store_record_length _ _ _ _ Hst).
    + intros j Hj. apply (store_record_below _ _ _ _ _ Hst Hj).
Qed.

Lemma forward_loop_history fin future_snapshot snaps : forall st st' (lo : Z),
  forward_loop uninit fin future_snapshot snaps st = Ok st' ->
  Forall (fun s => lo <= s) snaps ->
  length (fw_history st') = length (fw_history st)
  /\ forall j : nat, Z.of_nat j < lo ->
                     fw_history st' !! j = fw_history st !! j.
Proof.
  induction snaps as [|snap rest IH]; intros st st' lo H Hlo.
  - injection H as <-. split; [reflexivity | intros; reflexivity].
  - cbn [forward_loop] in H.
    apply bind_ok_inv in H as (r & Hstep & H).
    apply Forall_cons in Hlo as (Hsnap & Hrest).
    pose proof (forward_step_history _ _ _ _ _ Hstep) as (Hl & Hk).
    destruct r as [st1|st1]; cbn in Hl, Hk.
    + injection H as <-. split; [exact Hl|].
      intros j Hj. apply Hk. lia.
    + destruct (IH st1 st' lo H Hrest) as (Hl' & Hk').
      split; [congruence|].
      intros j Hj. rewrite Hk' by exact Hj. apply Hk. lia.
Qed.

Lemma range_above lo hi : Forall (fun s => lo <= s) (range lo hi).
Proof.
  apply Forall_forall. intros m Hm. apply range_bounds in Hm. lia.
Qed.

(** The pieces of a returning call. *)
Lemma galaxy_history_inv fin gal_id snapshot future_snapshot pandas r :
  galaxy_history uninit fin gal_id snapshot future_snapshot pandas = Ok r ->
  pandas = false
  /\ exists history start_ind,
       backward_phase uninit fin gal_id snapshot
         (effective_future snapshot future_snapshot)
       = Ok (history, start_ind)
       /\ ((effective_future snapshot future_snapshot = snapshot
            /\ r = HistoryOnly history)
           \/ (effective_future snapshot future_snapshot <> snapshot
               /\ exists st,
                    forward_phase uninit fin snapshot
                      (effective_future snapshot future_snapshot)
                      history start_ind = Ok st
                    /\ r = HistoryMerged (fw_history st) (fw_merged st))).
Proof.
  intros H. unfold galaxy_history in H. cbn zeta in H.
  apply bind_ok_inv in H as ([history start_ind] & Hback & H).
  assert (Hp : pandas = false).
  { destruct pandas; [|reflexivity].
    apply bind_ok_inv in H as ([h m] & _ & H). cbn [bind] in H.
    discriminate. }
  subst pandas. split; [reflexivity|].
  exists history, start_ind. split; [exact Hback|].
  destruct (Z.eqb_spec (effective_future snapshot future_snapshot) snapshot)
    as [Heq|Hne]; cbn [negb bind] in H.
  - left. split; [exact Heq | congruence].
  - right. split; [exact Hne|].
    apply bind_ok_inv in H as ([h m] & Hfw & H).
    apply bind_ok_inv in Hfw as (st & Hst & Hfw).
    injection Hfw as <- <-.
    exists st. split; [exact Hst|]. cbn [bind] in H. congruence.
Qed.

End WalkEdges.

Section WalkProperties.

Variable uninit : galaxy.

(** X13. No history can be traced from snapshot 0 or from a negative
    snapshot: the call never returns, because the FirstProgenitor array of
    the starting snapshot needs the group of the snapshot before it; at
    snapshot 0, once the galaxy has been found, the failure is the
    [KeyError] of that lookup. *)
Theorem no_history_from_snapshot_0 fin gal_id snapshot future_snapshot pandas :
  snapshot <= 0 ->
  is_ok (galaxy_history uninit fin gal_id snapshot future_snapshot pandas)
  = false
  /\ forall gals start_ind,
       snapshot = 0 ->
       -1 <= future_snapshot ->
       read_gals uninit fin snapshot None = Ok gals ->
       where_id gals gal_id = Ok start_ind ->
       galaxy_history uninit fin gal_id snapshot future_snapshot pandas
       = Raise KeyError.
Proof.
  intros Hs. split.
  - destruct (galaxy_history uninit fin gal_id snapshot future_snapshot pandas)
      as [r|e] eqn:H; [|reflexivity].
    apply galaxy_history_inv in H as (_ & h & si & Hback & _).
    apply backward_phase_facts in Hback. lia.
  - intros gals start_ind H0 Hfut Hgals Hid. subst snapshot.
    assert (Heff : 0 <= effective_future 0 future_snapshot).
    { unfold effective_future.
      destruct (Z.eqb_spec future_snapshot (-1)); lia. }
    destruct (backward_phase_start uninit fin gal_id 0
                (effective_future 0 future_snapshot) gals start_ind
                Hgals Hid ltac:(lia)) as (g & _ & Hphase).
    unfold galaxy_history. rewrite Hphase. cbn zeta.
    rewrite read_firstprogenitor_nonpositive by lia. reflexivity.
Qed.

(** The backward loop along first-progenitor links that reach
    snapshot 0. *)
Lemma backward_loop_reaches_zero fin s ind ind0 :
  chain_reaches_zero fin s ind ind0 ->
  forall history G0,
  0 <= s ->
  (Z.to_nat s < length history)%nat ->
  read_gals uninit fin 0 (Some ind0) = Ok G0 ->
  backward_loop uninit fin (range_down (s + 1)) history ind = Raise KeyError.
Proof.
  induction 1 as [ind|snap ind fp_ind ind' ind0 Hfp Hidx Hne Hchain IH];
    intros history G0 Hs Hlen HG0.
  - change (range_down (0 + 1)) with [0]. cbn [backward_loop].
    rewrite HG0. cbn [bind].
    destruct (read_gals_one_singleton uninit _ _ _ _ HG0) as (r & ->).
    cbn [store_record]. rewrite np_setitem_Z by lia. cbn [bind].
    rewrite read_firstprogenitor_nonpositive by lia. reflexivity.
  - destruct (read_firstprogenitor_facts _ _ _ Hfp) as (Hs1 & g & Hg & Hn & Hl).
    pose proof (np_index_in_range _ _ _ Hidx) as Hpos.
    destruct (read_gals_one_total uninit fin snap ind g Hg ltac:(lia) Hn)
      as (r & Hr).
    rewrite range_down_succ by lia. cbn [backward_loop].
    rewrite Hr. cbn [bind store_record].
    rewrite np_setitem_Z by lia. cbn [bind].
    rewrite Hfp. cbn [bind]. rewrite Hidx. cbn [bind].
    destruct (Z.eqb_spec ind' (-1)) as [?|_]; [contradiction|].
    replace snap with (snap - 1 + 1) at 1 by lia.
    apply (IH _ G0); [lia | rewrite length_insert; lia | exact HG0].
Qed.

(** X14. When the first-progenitor links of the galaxy lead all the way
    down to snapshot 0, the call does not return a history: after the
    record of snapshot 0 has been stored, the loop asks for the
    FirstProgenitor array of snapshot 0 and the call ends with
    [KeyError]. *)
Theorem chain_to_snapshot_0_is_fatal fin gal_id snapshot future_snapshot pandas
    gals start_ind ind0 G0 :
  read_gals uninit fin snapshot None = Ok gals ->
  where_id gals gal_id = Ok start_ind ->
  1 <= snapshot <= effective_future snapshot future_snapshot ->
  chain_reaches_zero fin snapshot (Z.of_nat start_ind) ind0 ->
  read_gals uninit fin 0 (Some ind0) = Ok G0 ->
  galaxy_history uninit fin gal_id snapshot future_snapshot pandas
  = Raise KeyError.
Proof.
  intros Hgals Hid Hs Hchain HG0.
  destruct (backward_phase_start uninit fin gal_id snapshot
              (effective_future snapshot future_snapshot) gals start_ind
              Hgals Hid ltac:(lia)) as (g & _ & Hphase).
  unfold galaxy_history. rewrite Hphase. cbn zeta.
  inversion Hchain as [|? ? fp_ind ind' ? Hfp Hidx Hne Hrest]; subst; [lia|].
  rewrite Hfp. cbn [bind]. rewrite Hidx. cbn [bind].
  destruct (Z.eqb_spec ind' (-1)) as [?|_]; [contradiction|].
  pose proof (backward_loop_reaches_zero fin (snapshot - 1) ind' ind0 Hrest
                (<[Z.to_nat snapshot := g]>
                   (replicate
                      (Z.to_nat (effective_future snapshot future_snapshot + 1))
                      zero_galaxy)) G0 ltac:(lia)
                ltac:(rewrite length_insert, length_replicate; lia) HG0)
    as Hloop.
  replace (snapshot - 1 + 1) with snapshot in Hloop by lia.
  rewrite Hloop. reflexivity.
Qed.

(** X15. With [pandas=True] the call never returns: when the walk itself
    succeeds, the conversion of the history fails with [NameError],
    [DataFrame] being a name the module does not bind. *)
Theorem pandas_never_returns fin gal_id snapshot future_snapshot :
  is_ok (galaxy_history uninit fin gal_id snapshot future_snapshot true) = false
  /\ forall r,
       galaxy_history uninit fin gal_id snapshot future_snapshot false = Ok r ->
       galaxy_history uninit fin gal_id snapshot future_snapshot true
       = Raise NameError.
Proof.
  split.
  - destruct (galaxy_history uninit fin gal_id snapshot future_snapshot true)
      as [r|e] eqn:H; [|reflexivity].
    apply galaxy_history_inv in H as (Hp & _). discriminate.
  - intros r H. unfold galaxy_history in *. cbn zeta in *.
    apply bind_ok_inv in H as ([history start_ind] & Hback & H).
    rewrite Hback. cbn [bind].
    apply bind_ok_inv in H as ([h m] & Hfw & _).
    rewrite Hfw. reflexivity.
Qed.

(** X16. The history a call returns has one slot per snapshot from 0 to
    the effective [future_snapshot], and the starting snapshot, which is
    at least 1, is one of them. *)
Theorem history_length fin gal_id snapshot future_snapshot pandas r :
  galaxy_history uninit fin gal_id snapshot future_snapshot pandas = Ok r ->
  length (history_of r)
  = Z.to_nat (effective_future snapshot future_snapshot + 1)
  /\ 1 <= snapshot <= effective_future snapshot future_snapshot.
Proof.
  intros H.
  apply galaxy_history_inv in H as (_ & h & si & Hback & Hr).
  apply backward_phase_facts in Hback as (Hs & Hlen).
  split; [|exact Hs].
  destruct Hr as [(_ & ->)|(_ & st & Hst & ->)]; cbn [history_of].
  - exact Hlen.
  - unfold forward_phase in Hst.
    destruct (forward_loop_history uninit _ _ _ _ _ (snapshot + 1) Hst
                (range_above _ _)) as (Hl & _).
    cbn [fw_history] in Hl. congruence.
Qed.

(** X17. A merge marker other than -1 is a snapshot strictly between the
    starting snapshot and [future_snapshot]: a divergence at
    [future_snapshot] itself is never recorded. *)
Theorem merged_snapshot_range fin gal_id snapshot future_snapshot pandas
    history merged_snapshot :
  galaxy_history uninit fin gal_id snapshot future_snapshot pandas
  = Ok (HistoryMerged history merged_snapshot) ->
  merged_snapshot = -1 \/ snapshot < merged_snapshot < future_snapshot.
Proof.
  intros H.
  destruct (galaxy_history_inv uninit _ _ _ _ _ _ H)
    as (_ & h & si & Hback & [(_ & Hr)|(Hne & st & Hst & Hr)]);
    [discriminate|].
  injection Hr as -> ->.
  unfold forward_phase in Hst.
  destruct (forward_loop_detects uninit _ _ _ _ _ Hst eq_refl)
    as [Hm|(pre & post & sa & sb & fpi & fp & Hsplit & _ & _ & Hlt & _)];
    [left; exact Hm|].
  right.
  assert (Hin : fw_merged st
                ∈ range (snapshot + 1)
                    (effective_future snapshot future_snapshot + 1)).
  { rewrite Hsplit. apply elem_of_app. right. left. }
  apply range_bounds in Hin.
  unfold effective_future in *.
  destruct (Z.eqb_spec future_snapshot (-1)); [contradiction | lia].
Qed.

(** X18. The forward phase writes only slots after the starting snapshot:
    up to the starting snapshot the history returned with a merge marker
    is the history the backward phase built. *)
Theorem forward_keeps_past fin gal_id snapshot future_snapshot pandas
    history merged_snapshot :
  galaxy_history uninit fin gal_id snapshot future_snapshot pandas
  = Ok (HistoryMerged history merged_snapshot) ->
  exists history0 start_ind,
    backward_phase uninit fin gal_id snapshot
      (effective_future snapshot future_snapshot)
    = Ok (history0, start_ind)
    /\ length history = length history0
    /\ forall j : nat, Z.of_nat j <= snapshot ->
                       history !! j = history0 !! j.
Proof.
  intros H.
  destruct (galaxy_history_inv uninit _ _ _ _ _ _ H)
    as (_ & h & si & Hback & [(_ & Hr)|(Hne & st & Hst & Hr)]);
    [discriminate|].
  injection Hr as -> ->.
  exists h, si. split; [exact Hback|].
  unfold forward_phase in Hst.
  destruct (forward_loop_history uninit _ _ _ _ _ (snapshot + 1) Hst
              (range_above _ _)) as (Hl & Hk).
  cbn [fw_history] in Hl, Hk. split; [exact Hl|].
  intros j Hj. apply Hk. lia.
Qed.

(** X19. When the galaxy has no descendant in the snapshot after the
    starting one (its stitched Descendant value is -1), a call asked for
    the future returns the history of the backward phase and the marker
    -1. *)
Theorem no_descendant_ends_walk fin gal_id snapshot future_snapshot
    history start_ind desc_ind :
  backward_phase uninit fin gal_id snapshot
    (effective_future snapshot future_snapshot)
  = Ok (history, start_ind) ->
  snapshot < effective_future snapshot future_snapshot ->
  read_descendant_indices fin snapshot = Ok desc_ind ->
  np_index desc_ind (Z.of_nat start_ind) = Ok (-1) ->
  galaxy_history uninit fin gal_id snapshot future_snapshot false
  = Ok (HistoryMerged history (-1)).
Proof.
  intros Hback Hlt Hdesc Hidx.
  unfold galaxy_history. cbn zeta. rewrite Hback. cbn [bind].
  destruct (Z.eqb_spec (effective_future snapshot future_snapshot) snapshot);
    [lia|].
  cbn [negb]. unfold forward_phase, range.
  replace (Z.to_nat (effective_future snapshot future_snapshot + 1
                     - (snapshot + 1)))
    with (S (Z.to_nat (effective_future snapshot future_snapshot
                       - snapshot - 1))) by lia.
  simpl seq. simpl map. cbn [forward_loop]. unfold forward_step.
  cbn [fw_ind fw_history fw_merged].
  replace (snapshot + 1 + Z.of_nat 0 - 1) with snapshot by lia.
  rewrite Hdesc. cbn [bind]. rewrite Hidx. cbn [bind]. reflexivity.
Qed.

(** X20. When no record of the starting snapshot carries the requested
    [ID], the call fails with [IndexError]. *)
Theorem unknown_galaxy_raises fin gal_id snapshot future_snapshot pandas gals :
  read_gals uninit fin snapshot None = Ok gals ->
  Forall (fun g => ID g <> gal_id) gals ->
  galaxy_history uninit fin gal_id snapshot future_snapshot pandas
  = Raise IndexError.
Proof.
  intros Hgals Hnone.
  unfold galaxy_history, backward_phase. cbn zeta.
  rewrite Hgals. cbn [bind]. unfold where_id.
  rewrite (proj2 (list_find_None (fun g => ID g = gal_id) gals)) by exact Hnone.
  reflexivity.
Qed.

(** X21. A [future_snapshot] below -1 makes the call fail with
    [ValueError] once the galaxy has been found: the history buffer would
    have a negative size. *)
Theorem negative_future_raises fin gal_id snapshot future_snapshot pandas
    gals start_ind :
  future_snapshot < -1 ->
  read_gals uninit fin snapshot None = Ok gals ->
  where_id gals gal_id = Ok start_ind ->
  galaxy_history uninit fin gal_id snapshot future_snapshot pandas
  = Raise ValueError.
Proof.
  intros Hfut Hgals Hid.
  unfold galaxy_history, backward_phase, effective_future. cbn zeta.
  destruct (Z.eqb_spec future_snapshot (-1)); [lia|].
  rewrite Hgals. cbn [bind]. rewrite Hid. cbn [bind].
  unfold np_zeros_rec.
  destruct (Z.ltb_spec (future_snapshot + 1) 0); [reflexivity | lia].
Qed.

End WalkProperties.

Lemma no_history_from_snapshot_0_witness :
  is_ok (galaxy_history junk demo_catalog 100 0 2 false) = false
  /\ galaxy_history junk demo_catalog 100 0 2 false = Raise KeyError.
Proof.
  destruct (no_history_from_snapshot_0 junk demo_catalog 100 0 2 false
              ltac:(lia)) as [Hnone Hkey].
  split; [exact Hnone|].
  apply (Hkey [gal 100; mkGalaxy 101 1] 0%nat).
  - reflexivity.
  - lia.
  - reflexivity.
  - reflexivity.
Defined.

Lemma chain_to_snapshot_0_is_fatal_witness :
  galaxy_history junk old_catalog 110 1 (-1) false = Raise KeyError.
Proof.
  apply (chain_to_snapshot_0_is_fatal junk old_catalog 110 1 (-1) false
           [gal 110; mkGalaxy 111 1] 0 0 [gal 100]).
  - reflexivity.
  - reflexivity.
  - unfold effective_future. simpl. lia.
  - apply (reaches_step old_catalog 1 0 [0; 1] 0 0).
    + reflexivity.
    + reflexivity.
    + lia.
    + apply reaches_here.
  - reflexivity.
Defined.

Lemma pandas_never_returns_witness :
  is_ok (galaxy_history junk demo_catalog 121 2 4 true) = false
  /\ galaxy_history junk demo_catalog 121 2 4 true = Raise NameError.
Proof.
  destruct (pandas_never_returns junk demo_catalog 121 2 4) as [Hnone Hname].
  split; [exact Hnone|].
  apply (Hname (HistoryMerged
                  [zero_galaxy; gal 111; gal 121; gal 130; gal 140] 3)).
  reflexivity.
Defined.

Lemma history_length_witness :
  length (history_of (HistoryMerged
                        [zero_galaxy; gal 111; gal 121; gal 130; gal 140] 3))
  = Z.to_nat (effective_future 2 4 + 1)
  /\ 1 <= 2 <= effective_future 2 4.
Proof.
  apply (history_length junk demo_catalog 121 2 4 false).
  reflexivity.
Defined.

Lemma merged_snapshot_range_witness :
  3 = -1 \/ 2 < 3 < 4.
Proof.
  apply (merged_snapshot_range junk demo_catalog 121 2 4 false
           [zero_galaxy; gal 111; gal 121; gal 130; gal 140] 3).
  reflexivity.
Defined.

Lemma forward_keeps_past_witness :
  exists history0 start_ind,
    backward_phase junk demo_catalog 121 2 (effective_future 2 4)
    = Ok (history0, start_ind)
    /\ length [zero_galaxy; gal 111; gal 121; gal 130; gal 140]
       = length history0
    /\ forall j : nat, Z.of_nat j <= 2 ->
         [zero_galaxy; gal 111; gal 121; gal 130; gal 140] !! j
         = history0 !! j.
Proof.
  apply (forward_keeps_past junk demo_catalog 121 2 4 false
           [zero_galaxy; gal 111; gal 121; gal 130; gal 140] 3).
  reflexivity.
Defined.

Lemma no_descendant_ends_walk_witness :
  galaxy_history junk orphan_catalog 120 2 3 false
  = Ok (HistoryMerged [zero_galaxy; gal 110; gal 120; zero_galaxy] (-1)).
Proof.
  apply (no_descendant_ends_walk junk orphan_catalog 120 2 3
           [zero_galaxy; gal 110; gal 120; zero_galaxy] 0 [-1; 1]).
  - reflexivity.
  - unfold effective_future. simpl. lia.
  - reflexivity.
  - reflexivity.
Defined.

Lemma unknown_galaxy_raises_witness :
  galaxy_history junk demo_catalog 999 1 3 false = Raise IndexError.
Proof.
  apply (unknown_galaxy_raises junk demo_catalog 999 1 3 false
           [gal 110; gal 111; mkGalaxy 112 2]).
  - reflexivity.
  - repeat constructor; simpl; lia.
Defined.

Lemma negative_future_raises_witness :
  galaxy_history junk demo_catalog 121 2 (-2) false = Raise ValueError.
Proof.
  apply (negative_future_raises junk demo_catalog 121 2 (-2) false
           [gal 120; gal 121; mkGalaxy 122 2] 1).
  - lia.
  - reflexivity.
  - reflexivity.
Defined.

(** ** Group names: writing and reading snapshot numbers *)

Lemma fold_decimal_app (a b : list Z) (acc : Z) :
  fold_left (fun a d => 10 * a + d) (a ++ b) acc
  = fold_left (fun a d => 10 * a + d) b
      (fold_left (fun a d => 10 * a + d) a acc).
Proof. apply fold_left_app. Qed.

Lemma fold_decimal_acc (ds : list Z) (acc : Z) :
  fold_left (fun a d => 10 * a + d) ds acc
  = acc * 10 ^ Z.of_nat (length ds) + decimal_value ds.
Proof.
  unfold decimal_value. revert acc.
  induction ds as [|d ds IH]; intros acc.
  - simpl. lia.
  - cbn [fold_left length]. rewrite IH, (IH (10 * 0 + d)).
    rewrite Nat2Z.inj_succ, Z.pow_succ_r by lia. lia.
Qed.

Lemma decimal_value_app (a b : list Z) :
  decimal_value (a ++ b)
  = decimal_value a * 10 ^ Z.of_nat (length b) + decimal_value b.
Proof.
  unfold decimal_value at 1. rewrite fold_decimal_app, fold_decimal_acc.
  reflexivity.
Qed.

Lemma decimal_value_bound (ds : list Z) :
  Forall is_digit ds ->
  0 <= decimal_value ds < 10 ^ Z.of_nat (length ds).
Proof.
  induction ds as [|d ds IH] using rev_ind; intros Hd.
  - unfold decimal_value. simpl. lia.
  - apply Forall_app in Hd as (Hds & Hd).
    apply Forall_cons in Hd as (Hd & _). unfold is_digit in Hd.
    specialize (IH Hds).
    rewrite decimal_value_app, length_app. cbn [length].
    replace (decimal_value [d]) with d by (unfold decimal_value; simpl; lia).
    rewrite Nat2Z.inj_add, Z.pow_add_r by lia.
    change (10 ^ Z.of_nat 1) with 10. nia.
Qed.

Lemma decimal_value_zeros (k : nat) (ds : list Z) :
  decimal_value (replicate k 0 ++ ds) = decimal_value ds.
Proof.
  rewrite decimal_value_app.
  assert (H : decimal_value (replicate k 0) = 0).
  { induction k as [|k IH]; [reflexivity|].
    change (replicate (S k) 0) with ([0] ++ replicate k 0).
    rewrite decimal_value_app, IH. unfold decimal_value. simpl. lia. }
  rewrite H. lia.
Qed.

(** The last [k] digits write the number modulo [10 ^ k]. *)
Lemma decimal_value_drop (ds : list Z) (k : nat) :
  Forall is_digit ds ->
  (k <= length ds)%nat ->
  decimal_value (drop (length ds - k) ds) = decimal_value ds mod 10 ^ Z.of_nat k.
Proof.
  intros Hd Hk.
  pose proof (decimal_value_app (take (length ds - k) ds)
                (drop (length ds - k) ds)) as Happ.
  rewrite take_drop in Happ. rewrite Happ.
  assert (Hlen : length (drop (length ds - k) ds) = k)
    by (rewrite length_drop; lia).
  rewrite Hlen.
  pose proof (decimal_value_bound (drop (length ds - k) ds)
                (Forall_drop _ _ _ Hd)) as Hb.
  rewrite Hlen in Hb.
  rewrite Z.add_comm, Z_mod_plus_full. symmetry. apply Z.mod_small. exact Hb.
Qed.

Lemma digits_acc_spec (fuel : nat) :
  forall n acc,
    0 <= n < 2 ^ Z.of_nat (S fuel) ->
    exists ds,
      digits_acc (S fuel) n acc = ds ++ acc
      /\ ds <> []
      /\ Forall is_digit ds
      /\ decimal_value ds = n.
Proof.
  induction fuel as [|fuel IH]; intros n acc Hn.
  - exists [n]. cbn [digits_acc].
    change (2 ^ Z.of_nat 1) with 2 in Hn.
    destruct (Z.ltb_spec n 10); [|lia].
    split; [reflexivity|]. split; [discriminate|]. split.
    + constructor; [unfold is_digit; lia | constructor].
    + unfold decimal_value. simpl. lia.
  - cbn [digits_acc]. destruct (Z.ltb_spec n 10) as [Hlt|Hge].
    + exists [n]. split; [reflexivity|]. split; [discriminate|]. split.
      * constructor; [unfold is_digit; lia | constructor].
      * unfold decimal_value. simpl. lia.
    + assert (Hdiv : 0 <= n / 10 < 2 ^ Z.of_nat (S fuel)).
      { rewrite (Nat2Z.inj_succ (S fuel)), Z.pow_succ_r in Hn by lia.
        split; [apply Z.div_pos; lia|].
        apply Z.div_lt_upper_bound; lia. }
      destruct (IH (n / 10) (n mod 10 :: acc) Hdiv) as (ds & Heq & _ & Hds & Hv).
      exists (ds ++ [n mod 10]).
      change (digits_acc (S fuel) (n / 10) (n mod 10 :: acc)
              = ds ++ n mod 10 :: acc) in Heq.
      rewrite <- app_assoc. split; [|split; [|split]].
      * exact Heq.
      * destruct ds; discriminate.
      * apply Forall_app. split; [exact Hds|].
        constructor; [|constructor].
        unfold is_digit. pose proof (Z.mod_pos_bound n 10). lia.
      * rewrite decimal_value_app, Hv. cbn [length].
        change (10 ^ Z.of_nat 1) with 10.
        replace (decimal_value [n mod 10]) with (n mod 10)
          by (unfold decimal_value; simpl; lia).
        pose proof (Z.div_mod n 10). lia.
Qed.

Lemma digits_spec (n : Z) :
  0 <= n ->
  digits n <> [] /\ Forall is_digit (digits n) /\ decimal_value (digits n) = n.
Proof.
  intros Hn. unfold digits.
  assert (Hb : 0 <= n < 2 ^ Z.of_nat (S (Z.to_nat (Z.log2 n)))).
  { split; [exact Hn|].
    rewrite Nat2Z.inj_succ, Z2Nat.id by apply Z.log2_nonneg.
    destruct (Z.eq_dec n 0) as [->|Hne]; [reflexivity|].
    apply Z.log2_spec. lia. }
  destruct (digits_acc_spec _ n [] Hb) as (ds & Heq & Hne & Hd & Hv).
  rewrite Heq, app_nil_r. auto.
Qed.

Lemma digit_cases (d : Z) :
  is_digit d ->
  d = 0 \/ d = 1 \/ d = 2 \/ d = 3 \/ d = 4
  \/ d = 5 \/ d = 6 \/ d = 7 \/ d = 8 \/ d = 9.
Proof. unfold is_digit. lia. Qed.

Lemma digit_value_char (d : Z) :
  is_digit d ->
  digit_value (digit_char d) = Some d
  /\ (digit_char d =? "-")%char = false
  /\ (digit_char d =? "+")%char = false.
Proof.
  intros Hd.
  destruct (digit_cases d Hd) as [->|[->|[->|[->|[->|[->|[->|[->|[->| ->]]]]]]]]];
    repeat split.
Qed.

Lemma int_digits_chars (ds : list Z) (acc : Z) :
  Forall is_digit ds ->
  int_digits (map digit_char ds) acc
  = Some (fold_left (fun a d => 10 * a + d) ds acc).
Proof.
  intros Hd. revert acc.
  induction Hd as [|d ds Hd _ IH]; intros acc; [reflexivity|].
  cbn [map int_digits fold_left].
  destruct (digit_value_char d Hd) as (-> & _). apply IH.
Qed.

(** [int] of a non-empty string of digits, and of one with a minus sign. *)
Lemma py_int_digits (ds : list Z) :
  ds <> [] ->
  Forall is_digit ds ->
  py_int (map digit_char ds) = Ok (decimal_value ds)
  /\ py_int ("-"%char :: map digit_char ds) = Ok (- decimal_value ds).
Proof.
  intros Hne Hd. destruct ds as [|d ds]; [contradiction|].
  pose proof (int_digits_chars (d :: ds) 0 Hd) as Hint.
  fold (decimal_value (d :: ds)) in Hint.
  apply Forall_cons in Hd as (Hd0 & _).
  destruct (digit_value_char d Hd0) as (_ & Hm & Hp).
  split.
  - unfold py_int. cbn [map]. rewrite Hm, Hp.
    cbn [map] in Hint. rewrite Hint. f_equal; lia.
  - unfold py_int. change ("-" =? "-")%char with true. cbv iota.
    cbn [map] in *. rewrite Hint. f_equal; lia.
Qed.

Lemma zfill_digits (w : nat) (ds : list Z) :
  zfill w (map digit_char ds)
  = map digit_char (replicate (w - length ds) 0 ++ ds).
Proof.
  unfold zfill. rewrite length_map, map_app. f_equal.
  induction (w - length ds)%nat as [|k IH]; [reflexivity|].
  cbn [replicate map]. rewrite <- IH. reflexivity.
Qed.

(** The digits ['%03d'] writes for a non-negative number, and for the
    absolute value of a negative one. *)
Lemma format_03d_digits (n : Z) :
  exists ds,
    ds <> []
    /\ Forall is_digit ds
    /\ decimal_value ds = Z.abs n
    /\ (0 <= n -> format_03d n = map digit_char ds /\ (3 <= length ds)%nat)
    /\ (n < 0 -> format_03d n = "-"%char :: map digit_char ds).
Proof.
  assert (Hz : forall k ds,
             ds <> [] -> Forall is_digit ds ->
             replicate k 0 ++ ds <> []
             /\ Forall is_digit (replicate k 0 ++ ds)).
  { intros k ds Hne Hd. split.
    - destruct k; [exact Hne | discriminate].
    - apply Forall_app. split; [|exact Hd].
      apply Forall_replicate. unfold is_digit. lia. }
  unfold format_03d. destruct (Z.ltb_spec n 0) as [Hneg|Hpos].
  - destruct (digits_spec (- n) ltac:(lia)) as (Hne & Hd & Hv).
    destruct (Hz (2 - length (digits (- n)))%nat _ Hne Hd) as (Hne' & Hd').
    eexists. split; [exact Hne'|]. split; [exact Hd'|].
    split; [rewrite decimal_value_zeros; lia|].
    split; [lia|]. intros _. rewrite zfill_digits. reflexivity.
  - destruct (digits_spec n Hpos) as (Hne & Hd & Hv).
    destruct (Hz (3 - length (digits n))%nat _ Hne Hd) as (Hne' & Hd').
    eexists. split; [exact Hne'|]. split; [exact Hd'|].
    split; [rewrite decimal_value_zeros; lia|].
    split; [|lia]. intros _. rewrite zfill_digits. split; [reflexivity|].
    rewrite length_app, length_replicate. lia.
Qed.

Lemma py_int_format (n : Z) : py_int (format_03d n) = Ok n.
Proof.
  destruct (format_03d_digits n) as (ds & Hne & Hd & Hv & Hpos & Hneg).
  destruct (py_int_digits ds Hne Hd) as (Hp & Hm).
  destruct (Z_lt_le_dec n 0) as [H|H].
  - rewrite (Hneg H), Hm. f_equal. lia.
  - destruct (Hpos H) as (-> & _). rewrite Hp. f_equal. lia.
Qed.

Lemma snap_name_inj (n m : Z) : snap_name n = snap_name m -> n = m.
Proof.
  intros H. unfold snap_name in H. apply app_inv_head in H.
  pose proof (py_int_format n) as Hn. rewrite H, py_int_format in Hn.
  congruence.
Qed.

Lemma last_three_snap_name (n : Z) :
  0 <= n -> py_int (last_three (snap_name n)) = Ok (n mod 1000).
Proof.
  intros Hn.
  destruct (format_03d_digits n) as (ds & Hne & Hd & Hv & Hpos & _).
  destruct (Hpos Hn) as (Hfmt & Hlen).
  unfold last_three, snap_name. rewrite Hfmt.
  rewrite length_app, length_map. cbn [length].
  replace (4 + length ds - 3)%nat with (4 + (length ds - 3))%nat by lia.
  change (drop (4 + (length ds - 3))
            (["S"; "n"; "a"; "p"]%char ++ map digit_char ds))
    with (drop (length ds - 3) (map digit_char ds)).
  rewrite skipn_map.
  assert (Hd3 : Forall is_digit (drop (length ds - 3) ds))
    by (apply Forall_drop; exact Hd).
  assert (Hne3 : drop (length ds - 3) ds <> []).
  { intros H. apply (f_equal length) in H. rewrite length_drop in H.
    simpl in H. lia. }
  destruct (py_int_digits _ Hne3 Hd3) as (-> & _).
  rewrite (decimal_value_drop ds 3 Hd Hlen), Hv. f_equal.
  rewrite Z.abs_eq by lia. reflexivity.
Qed.

Section SnapshotListProperties.

Variable float : Type.
Variable fdiv : float -> float -> float.
Variable meraxes_h : option float.

Lemma read_snaplist_loop_items (fin : named_file float) :
  forall (es : list (Z * float * float)) zlist snaplist lt_times,
    List.filter has_redshift fin = map snapshot_item es ->
    Forall (fun e => 0 <= fst (fst e)) es ->
    read_snaplist_loop fin zlist snaplist lt_times
    = Ok (snaplist ++ map (fun e => fst (fst e) mod 1000) es,
          zlist ++ map (fun e => snd (fst e)) es,
          lt_times ++ map snd es).
Proof.
  induction fin as [|[snap a] rest IH]; intros es zl sl lt Hf Hpos.
  - destruct es; [|discriminate]. simpl. rewrite !app_nil_r. reflexivity.
  - cbn [List.filter] in Hf. unfold has_redshift at 1 in Hf. cbn [snd] in Hf.
    cbn [read_snaplist_loop].
    destruct (Redshift a) as [z|] eqn:Hz.
    + destruct es as [|[[n z'] t] es']; [discriminate|].
      cbn [map snapshot_item] in Hf. injection Hf as -> Ha Hrest.
      subst a. cbn [Redshift LTTime] in *. injection Hz as <-.
      apply Forall_cons in Hpos as (Hn & Hpos'). cbn [fst] in Hn.
      rewrite (last_three_snap_name n Hn). cbn [bind].
      rewrite (IH es' (zl ++ [z']) (sl ++ [n mod 1000]) (lt ++ [t])
                 Hrest Hpos').
      cbn [map fst snd]. rewrite <- !app_assoc. reflexivity.
    + apply IH; assumption.
Qed.

Lemma read_snaplist_loop_lengths (fin : named_file float) :
  forall zlist snaplist lt_times snaps redshifts lts,
    read_snaplist_loop fin zlist snaplist lt_times
    = Ok (snaps, redshifts, lts) ->
    (length snaps
     = length snaplist + length (List.filter has_redshift fin)
     /\ length redshifts
        = length zlist + length (List.filter has_redshift fin)
     /\ length lts
        = length lt_times
          + length (List.filter
                      (fun it => has_redshift it && has_lt_time it) fin))%nat.
Proof.
  induction fin as [|[snap a] rest IH];
    intros zl sl lt snaps zs lts H.
  - simpl in H. injection H as <- <- <-. simpl. lia.
  - cbn [read_snaplist_loop] in H. cbn [List.filter].
    assert (Hr : has_redshift (snap, a)
                 = match Redshift a with Some _ => true | None => false end)
      by reflexivity.
    assert (Hl : has_lt_time (snap, a)
                 = match LTTime a with Some _ => true | None => false end)
      by reflexivity.
    rewrite Hr, Hl.
    destruct (Redshift a) as [z|].
    + apply bind_ok_inv in H as (n & _ & H).
      destruct (LTTime a) as [t|];
        apply IH in H as (H1 & H2 & H3);
        rewrite !length_app in *; cbn [length andb] in *; lia.
    + apply IH in H. cbn [andb]. exact H.
Qed.

Lemma map_result_snap_names (ns : list Z) :
  map_result (fun p => py_int (drop 4 p)) (map snap_name ns) = Ok ns.
Proof.
  induction ns as [|n ns IH]; [reflexivity|].
  cbn [map map_result].
  change (drop 4 (snap_name n)) with (format_03d n).
  rewrite py_int_format. cbn [bind]. rewrite IH. reflexivity.
Qed.

Lemma np_index_elem_of {A : Type} (a : list A) (i : Z) (x : A) :
  np_index a i = Ok x -> x ∈ a.
Proof.
  unfold np_index. destruct (_ || _); [discriminate|].
  destruct (a !! _) eqn:H; [|discriminate].
  intros [= <-]. eapply list_elem_of_lookup_2. exact H.
Qed.

Lemma item_lookup_present (fin : named_file float) (name : str) :
  name ∈ map fst fin -> exists a, item_lookup fin name = Ok a.
Proof.
  intros Hin. apply list_elem_of_fmap in Hin as (it & -> & Hit).
  destruct (list_find_elem_of (fun it' => fst it' = fst it) fin it Hit eq_refl)
    as ([i [nm a]] & Hfind).
  exists a. unfold item_lookup. rewrite Hfind. reflexivity.
Qed.

(** X22. Writing a snapshot number into a group name and reading it back
    gives the number: for every integer [n], negative ones included, the
    name ['Snap%03d' % n] is taken for a snapshot group and
    [int(name[4:])] is [n]. *)
Theorem snapshot_name_round_trip (n : Z) :
  starts_with_Snap (snap_name n) = true
  /\ py_int (drop 4 (snap_name n)) = Ok n.
Proof.
  split; [reflexivity|].
  change (drop 4 (snap_name n)) with (format_03d n). apply py_int_format.
Qed.

(** X23. [read_snaplist] reports for the group of snapshot [n] the number
    [n mod 1000]: it reads the last three characters of the name, so the
    snapshot numbers it returns are the snapshots only below 1000. Items
    without a [Redshift] attribute do not contribute. *)
Theorem read_snaplist_numbers (fin : named_file float) (h : option float)
    (es : list (Z * float * float)) :
  List.filter has_redshift fin = map snapshot_item es ->
  Forall (fun e => 0 <= fst (fst e)) es ->
  read_snaplist fdiv meraxes_h fin h
  = Ok (map (fun e => fst (fst e) mod 1000) es,
        map (fun e => snd (fst e)) es,
        match (match h, meraxes_h with
               | None, Some m => Some m
               | _, _ => h
               end) with
        | Some h' => map (fun t => fdiv t h') (map snd es)
        | None => map snd es
        end).
Proof.
  intros Hf Hpos. unfold read_snaplist.
  rewrite (read_snaplist_loop_items fin es [] [] [] Hf Hpos).
  reflexivity.
Qed.

(** X24. The arrays [read_snaplist] returns need not be aligned: there is
    one snapshot number and one redshift for every item with a [Redshift]
    attribute, and a light travel time only for those of them that also
    have [LTTime]. *)
Theorem read_snaplist_lengths (fin : named_file float) (h : option float)
    snaps redshifts lt_times :
  read_snaplist fdiv meraxes_h fin h = Ok (snaps, redshifts, lt_times) ->
  length snaps = length (List.filter has_redshift fin)
  /\ length redshifts = length snaps
  /\ length lt_times
     = length (List.filter (fun it => has_redshift it && has_lt_time it) fin)
  /\ (length lt_times <= length snaps)%nat.
Proof.
  intros H. unfold read_snaplist in H.
  apply bind_ok_inv in H as ([[sl zl] lt] & Hloop & H).
  apply read_snaplist_loop_lengths in Hloop as (H1 & H2 & H3).
  cbn [length] in *. injection H as <- <- <-.
  assert (Hlt : length (match (match h, meraxes_h with
                               | None, Some m => Some m
                               | _, _ => h
                               end) with
                        | Some h' => map (fun t => fdiv t h') lt
                        | None => lt
                        end) = length lt).
  { destruct h, meraxes_h; cbn; rewrite ?length_map; reflexivity. }
  rewrite Hlt, H1, H2, H3. repeat split.
  clear. induction fin as [|it rest IH]; [simpl; lia|].
  cbn [List.filter]. destruct (has_redshift it), (has_lt_time it);
    cbn [andb length]; lia.
Qed.

(** X25. [grab_redshift] with a negative [snapshot] counts from the end
    of the ascending list of the snapshots present: when the groups whose
    names start with [Snap] are the groups of the snapshots [ns], it
    finds the group of the snapshot at that position and returns its
    redshift, and fails with [KeyError] only when that group has no
    [Redshift]. *)
Theorem grab_redshift_from_end (fin : named_file float) (snapshot : Z)
    (ns sorted : list Z) (m : Z) :
  snapshot < 0 ->
  List.filter starts_with_Snap (map fst fin) = map snap_name ns ->
  Sorted Z.le sorted ->
  sorted ≡ₚ ns ->
  np_index sorted snapshot = Ok m ->
  exists a,
    item_lookup fin (snap_name m) = Ok a
    /\ grab_redshift fin snapshot
       = match Redshift a with
         | Some z => Ok z
         | None => Raise KeyError
         end.
Proof.
  intros Hneg Hf Hsorted Hperm Hidx.
  assert (Hin : snap_name m ∈ map fst fin).
  { apply np_index_elem_of in Hidx. rewrite Hperm in Hidx.
    apply list_elem_of_In.
    apply (proj1 (filter_In starts_with_Snap (snap_name m) (map fst fin))).
    rewrite Hf. apply in_map. apply list_elem_of_In. exact Hidx. }
  destruct (item_lookup_present fin _ Hin) as (a & Ha).
  exists a. split; [exact Ha|].
  unfold grab_redshift.
  destruct (Z.ltb_spec snapshot 0) as [_|?]; [|lia].
  rewrite Hf, map_result_snap_names. cbn [bind].
  assert (Hs : merge_sort Z.le ns = sorted).
  { apply (Sorted_unique Z.le).
    - apply Sorted_merge_sort. apply _.
    - exact Hsorted.
    - rewrite merge_sort_Permutation. symmetry. exact Hperm. }
  rewrite Hs, Hidx. cbn [bind]. rewrite Ha. reflexivity.
Qed.

End SnapshotListProperties.

Lemma read_snaplist_numbers_witness :
  read_snaplist Z.div None names_catalog (Some 10)
  = Ok ([7; 12; 0], [90; 85; 5], [70; 120; 1300]).
Proof.
  apply (read_snaplist_numbers Z Z.div None names_catalog (Some 10)
           [(7, 90, 700); (12, 85, 1200); (1000, 5, 13000)]).
  - reflexivity.
  - repeat constructor; simpl; lia.
Defined.

Lemma read_snaplist_lengths_witness :
  length [7; 12; 13] = length (List.filter has_redshift gappy_catalog)
  /\ length [90; 85; 80] = length [7; 12; 13]
  /\ length [700; 1300]
     = length (List.filter (fun it => has_redshift it && has_lt_time it)
                 gappy_catalog)
  /\ (length [700; 1300] <= length [7; 12; 13])%nat.
Proof.
  apply (read_snaplist_lengths Z Z.div None gappy_catalog None
           [7; 12; 13] [90; 85; 80] [700; 1300]).
  reflexivity.
Defined.

Lemma grab_redshift_from_end_witness :
  exists a,
    item_lookup names_catalog (snap_name 1000) = Ok a
    /\ grab_redshift names_catalog (-1)
       = match Redshift a with
         | Some z => Ok z
         | None => Raise KeyError
         end.
Proof.
  apply (grab_redshift_from_end Z names_catalog (-1)
           [7; 12; 1000] [7; 12; 1000] 1000).
  - lia.
  - reflexivity.
  - repeat constructor; lia.
  - reflexivity.
  - reflexivity.
Defined.

(** ** The merge marker in the forward phase *)

Section MergeMarker.

Variable uninit : galaxy.

(** Iterations that stay in the loop are the first part of the loop over
    a longer list of snapshots. *)
Lemma forward_loop_after_run fin future_snapshot pre st0 st :
  forward_run uninit fin future_snapshot pre st0 st ->
  forall snaps,
    forward_loop uninit fin future_snapshot (pre ++ snaps) st0
    = forward_loop uninit fin future_snapshot snaps st.
Proof.
  induction 1 as [st|snap rest st st1 st2 Hstep _ IH]; intros snaps.
  - reflexivity.
  - cbn [app forward_loop]. rewrite Hstep. cbn [bind]. apply IH.
Qed.

(** C4. When the forward phase of [galaxy_history] reaches snapshot [s]
    through a non-sentinel Descendant link, [s] lies before
    [future_snapshot], no merge has been recorded, and the stitched
    FirstProgenitor value of the descendant differs from the index the
    walk arrived from, the iteration sets [merged_snapshot] to [s] and the
    phase goes on from there; whatever the later iterations find, the
    phase ends with [merged_snapshot = s], and that is the marker a
    returning call gives back. *)
Theorem merge_recorded_once fin gal_id snapshot future_snapshot
    history start_ind pre s rest st st1 fp_ind fp :
  backward_phase uninit fin gal_id snapshot
    (effective_future snapshot future_snapshot)
  = Ok (history, start_ind) ->
  range (snapshot + 1) (effective_future snapshot future_snapshot + 1)
  = pre ++ s :: rest ->
  forward_run uninit fin (effective_future snapshot future_snapshot) pre
    (mkForward history (Z.of_nat start_ind) (-1)) st ->
  fw_merged st = -1 ->
  forward_step uninit fin (effective_future snapshot future_snapshot) s st
  = Ok (inr st1) ->
  s < effective_future snapshot future_snapshot ->
  read_firstprogenitor_indices fin s = Ok fp_ind ->
  np_index fp_ind (fw_ind st1) = Ok fp ->
  fp <> fw_ind st ->
  fw_merged st1 = s
  /\ forward_phase uninit fin snapshot
       (effective_future snapshot future_snapshot) history start_ind
     = forward_loop uninit fin (effective_future snapshot future_snapshot)
         rest st1
  /\ (forall later st2,
        forward_loop uninit fin (effective_future snapshot future_snapshot)
          later st1 = Ok st2 ->
        fw_merged st2 = s)
  /\ (forall st2,
        forward_phase uninit fin snapshot
          (effective_future snapshot future_snapshot) history start_ind
        = Ok st2 ->
        fw_merged st2 = s)
  /\ (forall pandas r,
        galaxy_history uninit fin gal_id snapshot future_snapshot pandas
        = Ok r ->
        exists h, r = HistoryMerged h s).
Proof.
  intros Hback Hrange Hrun Hnone Hstep Hlt Hfp Hfpv Hdiff.
  assert (Hs : fw_merged st1 = s).
  { destruct (forward_step_continue _ _ _ _ _ _ Hstep)
      as (_ & [(Hge & _)|(_ & fp_ind' & fp' & Hfp' & Hfpv' & ->)]); [lia|].
    assert (fp_ind' = fp_ind) by congruence. subst fp_ind'.
    assert (fp' = fp) by congruence. subst fp'.
    rewrite Hnone.
    destruct (Z.eqb_spec fp (fw_ind st)) as [?|_]; [contradiction|].
    reflexivity. }
  assert (Hpos : s <> -1).
  { apply read_firstprogenitor_facts in Hfp as (Hpos & _). lia. }
  assert (Hphase : forward_phase uninit fin snapshot
                     (effective_future snapshot future_snapshot)
                     history start_ind
                   = forward_loop uninit fin
                       (effective_future snapshot future_snapshot) rest st1).
  { unfold forward_phase. rewrite Hrange.
    rewrite (forward_loop_after_run _ _ _ _ _ Hrun).
    cbn [forward_loop]. rewrite Hstep. reflexivity. }
  assert (Hkeep : forall later st2,
             forward_loop uninit fin
               (effective_future snapshot future_snapshot) later st1
             = Ok st2 ->
             fw_merged st2 = s).
  { intros later st2 Hlater.
    rewrite (forward_loop_sticky _ _ _ _ _ _ Hlater) by congruence.
    exact Hs. }
  split; [exact Hs|]. split; [exact Hphase|]. split; [exact Hkeep|].
  split.
  - intros st2 Hst2. rewrite Hphase in Hst2. exact (Hkeep _ _ Hst2).
  - intros pandas r Hr.
    destruct (galaxy_history_inv uninit _ _ _ _ _ _ Hr)
      as (_ & h & si & Hback' & [(Heq & _)|(_ & st2 & Hst2 & ->)]).
    + assert (Hin : s ∈ range (snapshot + 1)
                      (effective_future snapshot future_snapshot + 1)).
      { rewrite Hrange. apply elem_of_app. right. left. }
      apply range_bounds in Hin. lia.
    + rewrite Hback in Hback'. injection Hback' as <- <-.
      rewrite Hphase in Hst2. rewrite (Hkeep _ _ Hst2).
      exists (fw_history st2). reflexivity.
Qed.

End MergeMarker.

(** The call for galaxy 121 from snapshot 2 to 4 returns: galaxy 130 of
    snapshot 3, its descendant, has galaxy 120 as first progenitor, and
    the marker is 3. *)
Lemma demo_merge_returned :
  galaxy_history junk demo_catalog 121 2 4 false
  = Ok (HistoryMerged [zero_galaxy; gal 111; gal 121; gal 130; gal 140] 3).
Proof. reflexivity. Qed.

Lemma merge_recorded_once_witness :
  fw_merged (mkForward [zero_galaxy; gal 111; gal 121; gal 130; zero_galaxy]
               0 3) = 3
  /\ forward_phase junk demo_catalog 2 (effective_future 2 4)
       [zero_galaxy; gal 111; gal 121; zero_galaxy; zero_galaxy] 1
     = forward_loop junk demo_catalog (effective_future 2 4) [4]
         (mkForward [zero_galaxy; gal 111; gal 121; gal 130; zero_galaxy]
            0 3)
  /\ (forall later st2,
        forward_loop junk demo_catalog (effective_future 2 4) later
          (mkForward [zero_galaxy; gal 111; gal 121; gal 130; zero_galaxy]
             0 3)
        = Ok st2 ->
        fw_merged st2 = 3)
  /\ (forall st2,
        forward_phase junk demo_catalog 2 (effective_future 2 4)
          [zero_galaxy; gal 111; gal 121; zero_galaxy; zero_galaxy] 1
        = Ok st2 ->
        fw_merged st2 = 3)
  /\ (forall pandas r,
        galaxy_history junk demo_catalog 121 2 4 pandas = Ok r ->
        exists h, r = HistoryMerged h 3).
Proof.
  apply (merge_recorded_once junk demo_catalog 121 2 4
           [zero_galaxy; gal 111; gal 121; zero_galaxy; zero_galaxy] 1
           [] 3 [4]
           (mkForward
              [zero_galaxy; gal 111; gal 121; zero_galaxy; zero_galaxy]
              1 (-1))
           (mkForward [zero_galaxy; gal 111; gal 121; gal 130; zero_galaxy]
              0 3)
           [0; 2] 0).
  - reflexivity.
  - reflexivity.
  - apply run_done.
  - reflexivity.
  - reflexivity.
  - unfold effective_future. simpl. lia.
  - reflexivity.
  - reflexivity.
  - simpl. lia.
Defined.
